(** * quickjs-go: the Context layer (context.go)

    A shallow embedding of [context.go], the host-side Context of the
    QuickJS binding.  The scripting engine itself is reached through cgo and
    is not part of the repository: it appears here as an interface
    ([Engine]) whose operations step an abstract engine state.  Host code is
    written in a small state-and-panic monad over a [World] that holds the
    engine state, the fields of the Context struct, the process-wide cgo
    handle table, the file system and the history of engine calls.

    Scope of the model: one Context per world; an engine call changes the
    engine state only, so host closures that a script might call back into
    are not followed; C strings and their frees are left out, the engine's
    own allocations ([js_free], [JS_FreeValue]) are kept. *)

From Stdlib Require Import ZArith Lia.
From stdpp Require Import base option list gmap strings.

Open Scope Z_scope.

(** ** Host-side data *)

(** Go's [error] values that this file produces or passes on.  A nil error
    is [None] in [option Error]. *)
Inductive Error :=
| Errorf (msg : string)          (* fmt.Errorf(msg) *)
| PathError (path : string)      (* what os.ReadFile returns on failure *)
| ScriptError (cause : string).  (* the host error built from an engine exception *)

(** The value carried by a Go panic. *)
Inductive PanicValue :=
| PanicError (e : Error)         (* panic(err) *)
| PanicRuntime (msg : string).   (* a runtime error such as an index out of range *)

(** The two native entry points of bridge.h that [JS_NewCFunction] wraps. *)
Inductive CFunction := InvokeProxy | InvokeAsyncProxy.

#[global] Instance CFunction_eq_dec : EqDecision CFunction.
Proof. solve_decision. Defined.

(** C's conversion of a [size_t] to a 32-bit [int]. *)
Definition C_int (z : Z) : Z := (z + 2 ^ 31) `mod` 2 ^ 32 - 2 ^ 31.

(** Go's conversion of a [uintptr] to [int64]. *)
Definition int64 (z : Z) : Z := (z + 2 ^ 63) `mod` 2 ^ 64 - 2 ^ 63.

(** ** The engine ABI

    Everything the file calls through [C.]: the constants of quickjs.h, the
    pure accessors, and the operations that read or change engine state.
    [Value_Error] is [Value.Error] of value.go, which turns the value fetched
    by [JS_GetException] into a host error (nil when there is none). *)
Class Engine := {
  ES : Type;
  JSValue : Type;
  JS_EVAL_TYPE_GLOBAL : Z;
  JS_EVAL_TYPE_MODULE : Z;
  JS_EVAL_FLAG_STRICT : Z;
  JS_EVAL_FLAG_STRIP : Z;
  JS_EVAL_FLAG_COMPILE_ONLY : Z;
  JS_TAG_MODULE : Z;
  JS_TAG_EXCEPTION : Z;
  JS_TAG_distinct : JS_TAG_EXCEPTION ≠ JS_TAG_MODULE;
  ValueGetTag : JSValue → Z;
  JS_NewNull : JSValue;
  JS_NewInt64 : Z → JSValue;
  JS_DetectModule : string → Z;
  JS_Eval : string → string → Z → ES → JSValue * ES;
  js_std_await : JSValue → ES → JSValue * ES;
  JS_GetException : ES → JSValue * ES;
  Value_Error : JSValue → ES → option Error;
  JS_FreeValue : JSValue → ES → ES;
  JS_FreeContext : ES → ES;
  JS_GetGlobalObject : ES → JSValue * ES;
  JS_NewCFunction : CFunction → ES → JSValue * ES;
  JS_Call : JSValue → JSValue → list JSValue → ES → JSValue * ES;
  JS_NewArrayBufferCopy : list Byte.byte → ES → JSValue * ES;
  JS_ReadObject : list Byte.byte → ES → JSValue * ES;
  (* the buffer returned is the memory at [ptr], read by offset *)
  JS_WriteObject : JSValue → ES → (Z → Byte.byte) * Z * ES;
  JS_ResolveModule : JSValue → ES → Z * ES;
  js_module_set_import_meta : JSValue → Z → Z → ES → ES;
  js_free : ES → ES;
}.

Section WithEngine.

(** The closures handed to [Function] and [AsyncFunction] are opaque host
    objects. *)
Context {E : Engine} {Callback AsyncCallback : Type}.

(** What a cgo handle can refer to in this file. *)
Inductive HandleObj :=
| HFunc (fn : Callback)
| HAsyncFunc (fn : AsyncCallback)
| HContext.

(** [Value] of value.go: one engine value; the back-reference to the
    Context is implicit, there being one Context per [World]. *)
Record Value := { ref : JSValue }.

(** [Context] struct: the three cached values are nil until first use. *)
Record Context := {
  globals : option Value;
  proxy : option Value;
  asyncProxy : option Value;
}.

(** One call through the ABI, as recorded in the history. *)
Inductive Event :=
| EvEval (code filename : string) (flags : Z)
| EvAwait (v : JSValue)
| EvGetException
| EvFreeValue (v : JSValue)
| EvFreeContext
| EvGetGlobalObject
| EvNewCFunction (f : CFunction)
| EvCall (fn this : JSValue) (args : list JSValue)
| EvNewArrayBufferCopy (data : list Byte.byte)
| EvReadObject (buf : list Byte.byte)
| EvWriteObject (v : JSValue)
| EvResolveModule (v : JSValue)
| EvSetImportMeta (v : JSValue) (use_realpath is_main : Z)
| EvJsFree.

Record World := {
  engine : ES;
  context : Context;
  handleIdx : Z;                       (* runtime/cgo's counter, a uintptr *)
  handles : gmap Z HandleObj;          (* runtime/cgo's table *)
  fs : string → list Byte.byte + Error;     (* what os.ReadFile yields per path *)
  trace : list Event;
}.

Definition set_engine (es : ES) (w : World) : World :=
  {| engine := es; context := context w; handleIdx := handleIdx w;
     handles := handles w; fs := fs w; trace := trace w |}.

Definition set_context (c : Context) (w : World) : World :=
  {| engine := engine w; context := c; handleIdx := handleIdx w;
     handles := handles w; fs := fs w; trace := trace w |}.

Definition set_handles (i : Z) (h : gmap Z HandleObj) (w : World) : World :=
  {| engine := engine w; context := context w; handleIdx := i;
     handles := h; fs := fs w; trace := trace w |}.

Definition log (ev : Event) (w : World) : World :=
  {| engine := engine w; context := context w; handleIdx := handleIdx w;
     handles := handles w; fs := fs w; trace := trace w ++ [ev] |}.

(** ** The monad of host code: state plus panics *)

Inductive Outcome (A : Type) :=
| Returned (a : A) (w : World)
| Panicked (p : PanicValue) (w : World).
Arguments Returned {A} a w.
Arguments Panicked {A} p w.

Definition M (A : Type) : Type := World → Outcome A.

#[global] Instance M_ret : MRet M := λ A a w, Returned a w.
#[global] Instance M_bind : MBind M := λ A B f m w,
  match m w with
  | Returned a w' => f a w'
  | Panicked p w' => Panicked p w'
  end.

Definition panic {A} (p : PanicValue) : M A := λ w, Panicked p w.
Definition get_context : M Context := λ w, Returned (context w) w.
Definition put_context (c : Context) : M unit := λ w, Returned tt (set_context c w).

(** [defer d] followed by [body]: [d] runs when [body] returns and also when
    it panics. *)
Definition defer {A} (d : M unit) (body : M A) : M A := λ w,
  match body w with
  | Returned a w' => (d ;; mret a) w'
  | Panicked p w' =>
      match d w' with
      | Returned _ w'' => Panicked p w''
      | Panicked p' w'' => Panicked p' w''
      end
  end.

(** The world an outcome ends in. *)
Definition final {A} (o : Outcome A) : World :=
  match o with Returned _ w => w | Panicked _ w => w end.

(** A call that returns a result and steps the engine. *)
Definition call {A} (ev : Event) (f : ES → A * ES) : M A := λ w,
  Returned (f (engine w)).1 (set_engine (f (engine w)).2 (log ev w)).

(** A call made for its effect only. *)
Definition call_ (ev : Event) (f : ES → ES) : M unit := λ w,
  Returned tt (set_engine (f (engine w)) (log ev w)).

Definition C_JS_Eval (code filename : string) (flags : Z) : M JSValue :=
  call (EvEval code filename flags) (JS_Eval code filename flags).
Definition C_js_std_await (v : JSValue) : M JSValue :=
  call (EvAwait v) (js_std_await v).
Definition C_JS_GetException : M JSValue :=
  call EvGetException JS_GetException.
Definition C_JS_FreeValue (v : JSValue) : M unit :=
  call_ (EvFreeValue v) (JS_FreeValue v).
Definition C_JS_FreeContext : M unit :=
  call_ EvFreeContext JS_FreeContext.
Definition C_JS_GetGlobalObject : M JSValue :=
  call EvGetGlobalObject JS_GetGlobalObject.
Definition C_JS_NewCFunction (f : CFunction) : M JSValue :=
  call (EvNewCFunction f) (JS_NewCFunction f).
Definition C_JS_Call (fn this : JSValue) (args : list JSValue) : M JSValue :=
  call (EvCall fn this args) (JS_Call fn this args).
Definition C_JS_NewArrayBufferCopy (data : list Byte.byte) : M JSValue :=
  call (EvNewArrayBufferCopy data) (JS_NewArrayBufferCopy data).
Definition C_JS_ReadObject (buf : list Byte.byte) : M JSValue :=
  call (EvReadObject buf) (JS_ReadObject buf).
Definition C_JS_WriteObject (v : JSValue) : M ((Z → Byte.byte) * Z) :=
  call (EvWriteObject v) (JS_WriteObject v).
Definition C_JS_ResolveModule (v : JSValue) : M Z :=
  call (EvResolveModule v) (JS_ResolveModule v).
Definition C_js_module_set_import_meta (v : JSValue) (a b : Z) : M unit :=
  call_ (EvSetImportMeta v a b) (js_module_set_import_meta v a b).
Definition C_js_free : M unit :=
  call_ EvJsFree js_free.

(** ** Helpers that live outside context.go *)

(** Modelled from the spec: [Value.Free] of value.go is not in the source
    tree; a Value "owns exactly one reference and must be released exactly
    once", which is one [JS_FreeValue] on its reference. *)
Definition Free (v : Value) : M unit := C_JS_FreeValue (ref v).

(** Modelled from the spec: [Value.IsException] of value.go (and
    [JS_IsException] of quickjs.h) is not in the source tree; the tag "is
    inspected through predicate operations (e.g., is this an exception)". *)
Definition IsException (v : JSValue) : bool :=
  bool_decide (ValueGetTag v = JS_TAG_EXCEPTION).

(** [Value.Error] of value.go, read off the engine: the host error for a
    value in an engine state.  The engine calls [Value.Error] makes of its
    own, property reads and the frees that go with them, are not entered in
    the history, which holds the calls context.go makes and those of
    [Value.Free]. *)
Definition Error_of (v : Value) : M (option Error) := λ w,
  Returned (Value_Error (ref v) (engine w)) w.

(** [cgo.NewHandle] of Go's runtime/cgo: bump the counter, panic when it
    wraps to zero, otherwise store the object under the new index. *)
Definition cgo_NewHandle (v : HandleObj) : M Z := λ w,
  let h := (handleIdx w + 1) `mod` 2 ^ 64 in
  if decide (h = 0)
  then Panicked (PanicRuntime "runtime/cgo: ran out of handle space")
         (set_handles h (handles w) w)
  else Returned h (set_handles h (<[h := v]> (handles w)) w).

(** [os.ReadFile]. *)
Definition os_ReadFile (path : string) : M (list Byte.byte + Error) := λ w,
  Returned (fs w path) w.

(** [C.GoBytes(ptr, n)]: the [n] bytes at [ptr]. *)
Definition GoBytes (ptr : Z → Byte.byte) (n : Z) : list Byte.byte :=
  ptr <$> seqZ 0 n.

(** ** context.go *)

(** [Context.Close]. *)
Definition Close : M unit :=
  ctx ← get_context;
  match proxy ctx with Some v => Free v | None => mret tt end;;
  match asyncProxy ctx with Some v => Free v | None => mret tt end;;
  match globals ctx with Some v => Free v | None => mret tt end;;
  C_JS_FreeContext.

(** [Context.Null]. *)
Definition Null : Value := {| ref := JS_NewNull |}.

(** [Context.Int64]. *)
Definition Int64 (v : Z) : Value := {| ref := JS_NewInt64 v |}.

(** [Context.ArrayBuffer]: [&binaryData[0]] is evaluated before the call. *)
Definition ArrayBuffer (binaryData : list Byte.byte) : M Value :=
  match binaryData !! 0%nat with
  | None => panic (PanicRuntime "index out of range [0] with length 0")
  | Some _ =>
      r ← C_JS_NewArrayBufferCopy binaryData;
      mret {| ref := r |}
  end.

Record EvalOptions := {
  js_eval_type_global : bool;
  js_eval_type_module : bool;
  js_eval_flag_strict : bool;
  js_eval_flag_strip : bool;
  js_eval_flag_compile_only : bool;
  filename : string;
  await : bool;
}.

(** [EvalOption]: a function that mutates the options it is given. *)
Definition EvalOption : Type := EvalOptions → EvalOptions.

Definition EvalFlagGlobal (global : bool) : EvalOption := λ flags,
  {| js_eval_type_global := global;
     js_eval_type_module := js_eval_type_module flags;
     js_eval_flag_strict := js_eval_flag_strict flags;
     js_eval_flag_strip := js_eval_flag_strip flags;
     js_eval_flag_compile_only := js_eval_flag_compile_only flags;
     filename := filename flags; await := await flags |}.

Definition EvalFlagModule (module : bool) : EvalOption := λ flags,
  {| js_eval_type_global := js_eval_type_global flags;
     js_eval_type_module := module;
     js_eval_flag_strict := js_eval_flag_strict flags;
     js_eval_flag_strip := js_eval_flag_strip flags;
     js_eval_flag_compile_only := js_eval_flag_compile_only flags;
     filename := filename flags; await := await flags |}.

Definition EvalFlagStrict (strict : bool) : EvalOption := λ flags,
  {| js_eval_type_global := js_eval_type_global flags;
     js_eval_type_module := js_eval_type_module flags;
     js_eval_flag_strict := strict;
     js_eval_flag_strip := js_eval_flag_strip flags;
     js_eval_flag_compile_only := js_eval_flag_compile_only flags;
     filename := filename flags; await := await flags |}.

Definition EvalFlagStrip (strip : bool) : EvalOption := λ flags,
  {| js_eval_type_global := js_eval_type_global flags;
     js_eval_type_module := js_eval_type_module flags;
     js_eval_flag_strict := js_eval_flag_strict flags;
     js_eval_flag_strip := strip;
     js_eval_flag_compile_only := js_eval_flag_compile_only flags;
     filename := filename flags; await := await flags |}.

Definition EvalFlagCompileOnly (compileOnly : bool) : EvalOption := λ flags,
  {| js_eval_type_global := js_eval_type_global flags;
     js_eval_type_module := js_eval_type_module flags;
     js_eval_flag_strict := js_eval_flag_strict flags;
     js_eval_flag_strip := js_eval_flag_strip flags;
     js_eval_flag_compile_only := compileOnly;
     filename := filename flags; await := await flags |}.

Definition EvalFileName (name : string) : EvalOption := λ flags,
  {| js_eval_type_global := js_eval_type_global flags;
     js_eval_type_module := js_eval_type_module flags;
     js_eval_flag_strict := js_eval_flag_strict flags;
     js_eval_flag_strip := js_eval_flag_strip flags;
     js_eval_flag_compile_only := js_eval_flag_compile_only flags;
     filename := name; await := await flags |}.

Definition EvalAwait (aw : bool) : EvalOption := λ flags,
  {| js_eval_type_global := js_eval_type_global flags;
     js_eval_type_module := js_eval_type_module flags;
     js_eval_flag_strict := js_eval_flag_strict flags;
     js_eval_flag_strip := js_eval_flag_strip flags;
     js_eval_flag_compile_only := js_eval_flag_compile_only flags;
     filename := filename flags; await := aw |}.

(** [for _, fn := range opts { fn(&options) }]. *)
Definition apply_opts (opts : list EvalOption) (options : EvalOptions) : EvalOptions :=
  foldl (λ o fn, fn o) options opts.

(** The literal [Eval] starts from. *)
Definition Eval_defaults : EvalOptions :=
  {| js_eval_type_global := true; js_eval_type_module := false;
     js_eval_flag_strict := false; js_eval_flag_strip := false;
     js_eval_flag_compile_only := false; filename := "<input>"; await := false |}.

(** The zero value [EvalOptions{}] that [CompileFile] starts from. *)
Definition EvalOptions_zero : EvalOptions :=
  {| js_eval_type_global := false; js_eval_type_module := false;
     js_eval_flag_strict := false; js_eval_flag_strip := false;
     js_eval_flag_compile_only := false; filename := ""; await := false |}.

(** The flag word [Eval] builds, first from the options and then from the
    module detection on the source text. *)
Definition Eval_flags (options : EvalOptions) : Z :=
  let cFlag := 0 in
  let cFlag := if js_eval_type_global options then Z.lor cFlag JS_EVAL_TYPE_GLOBAL else cFlag in
  let cFlag := if js_eval_type_module options then Z.lor cFlag JS_EVAL_TYPE_MODULE else cFlag in
  let cFlag := if js_eval_flag_strict options then Z.lor cFlag JS_EVAL_FLAG_STRICT else cFlag in
  let cFlag := if js_eval_flag_strip options then Z.lor cFlag JS_EVAL_FLAG_STRIP else cFlag in
  let cFlag := if js_eval_flag_compile_only options then Z.lor cFlag JS_EVAL_FLAG_COMPILE_ONLY else cFlag in
  cFlag.

Definition Eval_cFlag (code : string) (options : EvalOptions) : Z :=
  let cFlag := Eval_flags options in
  if decide (JS_DetectModule code ≠ 0) then Z.lor cFlag JS_EVAL_TYPE_MODULE else cFlag.

(** [Context.Exception]. *)
Definition Exception : M (option Error) :=
  r ← C_JS_GetException;
  let val := {| ref := r |} in
  defer (Free val) (Error_of val).

(** [Context.Eval]. *)
Definition Eval (code : string) (opts : list EvalOption) : M (Value * option Error) :=
  let options := apply_opts opts Eval_defaults in
  let cFlag := Eval_cFlag code options in
  r ← (if await options
       then r ← C_JS_Eval code (filename options) cFlag; C_js_std_await r
       else C_JS_Eval code (filename options) cFlag);
  let val := {| ref := r |} in
  if IsException (ref val)
  then err ← Exception; mret (val, err)
  else mret (val, None).

(** [Context.EvalFile]. *)
Definition EvalFile (filePath : string) (opts : list EvalOption) : M (Value * option Error) :=
  r ← os_ReadFile filePath;
  match r with
  | inr err => mret (Null, Some err)
  | inl b => Eval (String.string_of_list_byte b) (opts ++ [EvalFileName filePath])
  end.

(** [Context.LoadModule]. *)
Definition LoadModule (code moduleName : string) : M (Value * option Error) :=
  let cFlag := Z.lor JS_EVAL_TYPE_MODULE JS_EVAL_FLAG_COMPILE_ONLY in
  cVal ← C_JS_Eval code moduleName cFlag;
  if decide (ValueGetTag cVal ≠ JS_TAG_MODULE)
  then mret (Null, Some (Errorf "not a module"))
  else
    rc ← C_JS_ResolveModule cVal;
    if decide (rc ≠ 0)
    then C_JS_FreeValue cVal;; mret (Null, Some (Errorf "resolve module failed"))
    else
      C_js_module_set_import_meta cVal 0 1;;
      cVal ← C_js_std_await cVal;
      mret ({| ref := cVal |}, None).

(** [Context.LoadModuleFile]. *)
Definition LoadModuleFile (filePath moduleName : string) : M (Value * option Error) :=
  r ← os_ReadFile filePath;
  match r with
  | inr err => mret (Null, Some err)
  | inl b => LoadModule (String.string_of_list_byte b) moduleName
  end.

(** [Context.LoadModuleBytecode]. *)
Definition LoadModuleBytecode (buf : list Byte.byte) : M (Value * option Error) :=
  cVal ← C_JS_ReadObject buf;
  defer C_js_free (
    if IsException cVal
    then err ← Exception; mret (Null, err)
    else if decide (ValueGetTag cVal ≠ JS_TAG_MODULE)
    then mret (Null, Some (Errorf "not a module"))
    else
      rc ← C_JS_ResolveModule cVal;
      if decide (rc ≠ 0)
      then C_JS_FreeValue cVal;; mret (Null, Some (Errorf "resolve module failed"))
      else
        C_js_module_set_import_meta cVal 0 1;;
        cVal ← C_js_std_await cVal;
        mret ({| ref := cVal |}, None)).

(** [Context.Compile]; a nil slice is [None]. *)
Definition Compile (code : string) (opts : list EvalOption)
  : M (option (list Byte.byte) * option Error) :=
  '(val, err) ← Eval code (opts ++ [EvalFlagCompileOnly true]);
  match err with
  | Some e => mret (None, Some e)
  | None =>
      defer (Free val) (
        '(ptr, kSize) ← C_JS_WriteObject (ref val);
        defer C_js_free (
          if decide (C_int kSize ≤ 0)
          then err ← Exception; mret (None, err)
          else mret (Some (GoBytes ptr (C_int kSize)), None)))
  end.

(** [Context.CompileFile]. *)
Definition CompileFile (filePath : string) (opts : list EvalOption)
  : M (option (list Byte.byte) * option Error) :=
  r ← os_ReadFile filePath;
  match r with
  | inr err => mret (None, Some err)
  | inl b =>
      let options := apply_opts opts EvalOptions_zero in
      let opts := if decide (filename options = "") then opts ++ [EvalFileName filePath] else opts in
      Compile (String.string_of_list_byte b) opts
  end.

(** [Context.CompileModule]. *)
Definition CompileModule (filePath moduleName : string) (opts : list EvalOption)
  : M (option (list Byte.byte) * option Error) :=
  CompileFile filePath (opts ++ [EvalFileName moduleName]).

(** [Context.Globals]. *)
Definition Globals : M Value :=
  ctx ← get_context;
  match globals ctx with
  | Some g => mret g
  | None =>
      r ← C_JS_GetGlobalObject;
      let g := {| ref := r |} in
      put_context {| globals := Some g; proxy := proxy ctx; asyncProxy := asyncProxy ctx |};;
      mret g
  end.

(** The wrapper expressions evaluated by [Function] and [AsyncFunction]. *)
Definition Function_wrapper : string :=
  "(proxy, fnHandler, ctx) => function() { return proxy.call(this, fnHandler, ctx, ...arguments); }".

Definition AsyncFunction_wrapper : string :=
  "(proxy, fnHandler, ctx) => async function(...arguments) {
		let resolve, reject;
		const promise = new Promise((resolve_, reject_) => {
		  resolve = resolve_;
		  reject = reject_;
		});
		promise.resolve = resolve;
		promise.reject = reject;

		proxy.call(this, fnHandler, ctx, promise,  ...arguments);
		return await promise;
	}".

(** [ctx.proxy.ref]: dereferencing the cached pointer. *)
Definition deref (p : option Value) : M Value :=
  match p with
  | Some v => mret v
  | None => panic (PanicRuntime "invalid memory address or nil pointer dereference")
  end.

(** [Context.Function]. *)
Definition Function (fn : Callback) : M Value :=
  ctx ← get_context;
  match proxy ctx with
  | None =>
      r ← C_JS_NewCFunction InvokeProxy;
      put_context {| globals := globals ctx; proxy := Some {| ref := r |};
                     asyncProxy := asyncProxy ctx |}
  | Some _ => mret tt
  end;;
  h ← cgo_NewHandle (HFunc fn);
  let fnHandler := Int64 (int64 h) in
  h ← cgo_NewHandle HContext;
  let ctxHandler := Int64 (int64 h) in
  ctx ← get_context;
  p ← deref (proxy ctx);
  let args := [ref p; ref fnHandler; ref ctxHandler] in
  '(val, err) ← Eval Function_wrapper [];
  defer (Free val) (
    match err with
    | Some e => panic (PanicError e)
    | None =>
        r ← C_JS_Call (ref val) (ref Null) args;
        mret {| ref := r |}
    end).

(** [Context.AsyncFunction]. *)
Definition AsyncFunction (asyncFn : AsyncCallback) : M Value :=
  ctx ← get_context;
  match asyncProxy ctx with
  | None =>
      r ← C_JS_NewCFunction InvokeAsyncProxy;
      put_context {| globals := globals ctx; proxy := proxy ctx;
                     asyncProxy := Some {| ref := r |} |}
  | Some _ => mret tt
  end;;
  h ← cgo_NewHandle (HAsyncFunc asyncFn);
  let fnHandler := Int64 (int64 h) in
  h ← cgo_NewHandle HContext;
  let ctxHandler := Int64 (int64 h) in
  ctx ← get_context;
  p ← deref (asyncProxy ctx);
  let args := [ref p; ref fnHandler; ref ctxHandler] in
  '(val, err) ← Eval AsyncFunction_wrapper [];
  defer (Free val) (
    match err with
    | Some e => panic (PanicError e)
    | None =>
        r ← C_JS_Call (ref val) (ref Null) args;
        mret {| ref := r |}
    end).

(** ** Vocabulary for the statements *)

(** What the Exception Bridge yields when run in engine state [es]: the
    host error for the value [JS_GetException] hands over. *)
Definition bridge_error (es : ES) : option Error :=
  Value_Error (JS_GetException es).1 (JS_GetException es).2.

(** The frees that [Close] owes for one cached pointer. *)
Definition frees (p : option Value) : list Event :=
  match p with Some v => [EvFreeValue (ref v)] | None => [] end.

(** Calls that evaluate, compile, load or serialise script code. *)
Definition is_evaluation (ev : Event) : bool :=
  match ev with
  | EvEval _ _ _ | EvReadObject _ | EvWriteObject _ | EvCall _ _ _ | EvAwait _ => true
  | _ => false
  end.

(** Installations of a native shim. *)
Definition is_shim (f : CFunction) (ev : Event) : bool :=
  match ev, f with
  | EvNewCFunction InvokeProxy, InvokeProxy => true
  | EvNewCFunction InvokeAsyncProxy, InvokeAsyncProxy => true
  | _, _ => false
  end.

(** What the engine hands back for [Eval]'s one evaluation: the result of
    [JS_Eval], passed through [js_std_await] when await is requested. *)
Definition evaluation (code : string) (options : EvalOptions) (es : ES) : JSValue * ES :=
  let r := JS_Eval code (filename options) (Eval_cFlag code options) es in
  if await options then js_std_await r.1 r.2 else r.

(** The engine's evaluate entry point proper. *)
Definition is_eval (ev : Event) : bool :=
  match ev with EvEval _ _ _ => true | _ => false end.

(** Two worlds that differ in engine state and history only. *)
Definition same_host (w w' : World) : Prop :=
  context w' = context w ∧ handleIdx w' = handleIdx w
  ∧ handles w' = handles w ∧ fs w' = fs w.

(** One registration of a host closure, of either kind. *)
Inductive Registration :=
| Sync (fn : Callback)
| Async (fn : AsyncCallback).

Definition register (r : Registration) : M Value :=
  match r with Sync fn => Function fn | Async fn => AsyncFunction fn end.

(** The native entry point a registration goes through, the Context field
    that caches its shim, and the object its first handle refers to. *)
Definition entry (r : Registration) : CFunction :=
  match r with Sync _ => InvokeProxy | Async _ => InvokeAsyncProxy end.

Definition shim (f : CFunction) (ctx : Context) : option Value :=
  match f with InvokeProxy => proxy ctx | InvokeAsyncProxy => asyncProxy ctx end.

Definition closure (r : Registration) : HandleObj :=
  match r with Sync fn => HFunc fn | Async fn => HAsyncFunc fn end.

(** How many times the shim for [f] is installed in a stretch of history. *)
Definition installs (f : CFunction) (evs : list Event) : nat :=
  length (List.filter (is_shim f) evs).

(** The state runtime/cgo keeps: the counter is a uintptr and every index
    handed out so far lies between 1 and the counter. *)
Definition registry_ok (w : World) : Prop :=
  0 ≤ handleIdx w < 2 ^ 64
  ∧ ∀ h o, handles w !! h = Some o → 0 < h ≤ handleIdx w.

(** The option mutators, named, so that statements can range over them. *)
Inductive OptionName :=
| OGlobal (b : bool) | OModule (b : bool) | OStrict (b : bool) | OStrip (b : bool)
| OCompileOnly (b : bool) | OFileName (s : string) | OAwait (b : bool).

Definition mutator (o : OptionName) : EvalOption :=
  match o with
  | OGlobal b => EvalFlagGlobal b
  | OModule b => EvalFlagModule b
  | OStrict b => EvalFlagStrict b
  | OStrip b => EvalFlagStrip b
  | OCompileOnly b => EvalFlagCompileOnly b
  | OFileName s => EvalFileName s
  | OAwait b => EvalAwait b
  end.

(** The field a mutator writes, by position in the struct. *)
Definition field (o : OptionName) : nat :=
  match o with
  | OGlobal _ => 0 | OModule _ => 1 | OStrict _ => 2 | OStrip _ => 3
  | OCompileOnly _ => 4 | OFileName _ => 5 | OAwait _ => 6
  end%nat.

End WithEngine.

Arguments Returned {E Callback AsyncCallback A} a w.
Arguments Panicked {E Callback AsyncCallback A} p w.

(** * The rest of context.go *)

Section RestOfContext.

Context {E : Engine} {Callback AsyncCallback : Type}.

#[local] Abbreviation M := (M (Callback := Callback) (AsyncCallback := AsyncCallback)).


(** [Context.Await]. *)
Definition Await (v : Value) : M (Value * option Error) :=
  r ← C_js_std_await (ref v);
  let val := {| ref := r |} in
  if IsException (ref val)
  then err ← Exception; mret (val, err)
  else mret (val, None).

(** ** Vocabulary for the statements *)

(** What an option mutator writes, and what a field of the options holds. *)
Inductive Setting := SBool (b : bool) | SString (s : string).

Definition setting (o : OptionName) : Setting :=
  match o with
  | OGlobal b | OModule b | OStrict b | OStrip b | OCompileOnly b | OAwait b => SBool b
  | OFileName s => SString s
  end.

(** The field at a position of the struct; there are seven. *)
Definition read (k : nat) (o : EvalOptions) : option Setting :=
  match k with
  | 0 => Some (SBool (js_eval_type_global o))
  | 1 => Some (SBool (js_eval_type_module o))
  | 2 => Some (SBool (js_eval_flag_strict o))
  | 3 => Some (SBool (js_eval_flag_strip o))
  | 4 => Some (SBool (js_eval_flag_compile_only o))
  | 5 => Some (SString (filename o))
  | 6 => Some (SBool (await o))
  | _ => None
  end%nat.

(** The mutators of a list that write field [k], in order. *)
Definition writers (k : nat) (ns : list OptionName) : list OptionName :=
  List.filter (λ n, bool_decide (field n = k)) ns.

(** The filename a list of named options ends up with, if it sets one. *)
Definition named_filename (ns : list OptionName) : option string :=
  match last (writers 5 ns) with
  | Some (OFileName s) => Some s
  | _ => None
  end.

(** Calls of a script function, and frees of the C copy of a buffer. *)
Definition is_call (ev : Event) : bool :=
  match ev with EvCall _ _ _ => true | _ => false end.

Definition is_js_free (ev : Event) : bool :=
  match ev with EvJsFree => true | _ => false end.

(** The wrapper expression a registration evaluates. *)
Definition wrapper_source (r : Registration (Callback := Callback) (AsyncCallback := AsyncCallback))
  : string :=
  match r with Sync _ => Function_wrapper | Async _ => AsyncFunction_wrapper end.

(** The shim a registration passes to its wrapper and the engine state it
    evaluates the wrapper in: the cached shim and the state as it is, or,
    with none cached, what installing one gives. *)
Definition installed (r : Registration (Callback := Callback) (AsyncCallback := AsyncCallback))
    (ctx : Context) (es : ES) : JSValue * ES :=
  match shim (entry r) ctx with
  | Some p => (ref p, es)
  | None => JS_NewCFunction (entry r) es
  end.

(** Everything [Close] asks of the engine, for a given Context. *)
Definition teardown (ctx : Context) : list Event :=
  frees (proxy ctx) ++ frees (asyncProxy ctx) ++ frees (globals ctx) ++ [EvFreeContext].

End RestOfContext.

(** ** Engine entry points used by the rest of the file

    [EvalBytecode] and [AtomIdx] reach two more entry points.  They step the
    engine state like the others; the history keeps to the calls [Event]
    names, so these two leave no entry in it. *)
Class EngineX (E : Engine) := {
  JSAtom : Type;
  JS_EvalFunction : JSValue → ES → JSValue * ES;
  JS_NewAtomUInt32 : Z → ES → JSAtom * ES;
}.

Section WithEngineX.

Context {E : Engine} {X : EngineX E} {Callback AsyncCallback : Type}.

#[local] Abbreviation M := (M (Callback := Callback) (AsyncCallback := AsyncCallback)).

(** A call that steps the engine and is not entered in the history. *)
Definition step {A} (f : ES → A * ES) : M A := λ w,
  Returned (f (engine w)).1 (set_engine (f (engine w)).2 w).

(** Go's conversion of an [int64] to [uint32]. *)
Definition uint32 (z : Z) : Z := z `mod` 2 ^ 32.

(** [Atom] of atom.go: one engine atom. *)
Record Atom := { atom_ref : JSAtom }.

(** [Context.AtomIdx]. *)
Definition AtomIdx (idx : Z) : M Atom :=
  r ← step (JS_NewAtomUInt32 (uint32 idx));
  mret {| atom_ref := r |}.


End WithEngineX.

(** ** A small simulated engine

    A deterministic stand-in for QuickJS, used to run the model on concrete
    inputs.  It knows a handful of programs: ["import {"] does not parse, a
    program that begins with [throw] raises, everything else evaluates to an
    object; with the compile-only flag a program becomes bytecode, or a
    module record when the module flag is set. *)
Module Sim.

Inductive value :=
| VNull
| VInt (z : Z)
| VException
| VError (msg : string)
| VObject (n : nat)
| VCFunction (f : CFunction)
| VBytecode (code : string)
| VModule (code : string).

Record state := { pending : option string; allocated : nat }.

Definition tag (v : value) : Z :=
  match v with
  | VNull => 2
  | VInt _ => 0
  | VException => 6
  | VError _ | VObject _ | VCFunction _ => -1
  | VBytecode _ => -2
  | VModule _ => -3
  end.

Definition raise (msg : string) (s : state) : value * state :=
  (VException, {| pending := Some msg; allocated := allocated s |}).

Definition alloc (s : state) : value * state :=
  (VObject (allocated s), {| pending := pending s; allocated := S (allocated s) |}).

Definition detect_module (code : string) : Z :=
  if String.prefix "import" code || String.prefix "export" code then 1 else 0.

Definition eval (code filename : string) (flags : Z) (s : state) : value * state :=
  if String.eqb code "import {" then raise "SyntaxError: unexpected end of input" s
  else if Z.testbit flags 5 then
    (if Z.testbit flags 0 then VModule code else VBytecode code, s)
  else if String.prefix "throw" code then raise code s
  else alloc s.

Definition get_exception (s : state) : value * state :=
  (match pending s with Some msg => VError msg | None => VNull end,
   {| pending := None; allocated := allocated s |}).

Definition value_error (v : value) (s : state) : option Error :=
  match v with VError msg => Some (ScriptError msg) | _ => None end.

Definition write_object (v : value) (s : state) : (Z → Byte.byte) * Z * state :=
  match v with
  | VBytecode code | VModule code =>
      let bytes := String.list_byte_of_string code in
      (λ i, default Byte.x00 (bytes !! Z.to_nat i), Z.of_nat (length bytes), s)
  | _ => (λ _, Byte.x00, 0, {| pending := Some "TypeError: unsupported object class";
                               allocated := allocated s |})
  end.

Definition read_object (buf : list Byte.byte) (s : state) : value * state :=
  match buf with
  | [] => raise "SyntaxError: read after the end of the buffer" s
  | _ => (VBytecode (String.string_of_list_byte buf), s)
  end.

#[export] Instance abi : Engine := {|
  ES := state;
  JSValue := value;
  JS_EVAL_TYPE_GLOBAL := 0;
  JS_EVAL_TYPE_MODULE := 1;
  JS_EVAL_FLAG_STRICT := 8;
  JS_EVAL_FLAG_STRIP := 16;
  JS_EVAL_FLAG_COMPILE_ONLY := 32;
  JS_TAG_MODULE := -3;
  JS_TAG_EXCEPTION := 6;
  JS_TAG_distinct := ltac:(discriminate);
  ValueGetTag := tag;
  JS_NewNull := VNull;
  JS_NewInt64 := VInt;
  JS_DetectModule := detect_module;
  JS_Eval := eval;
  js_std_await := λ v s, (v, s);
  JS_GetException := get_exception;
  Value_Error := value_error;
  JS_FreeValue := λ _ s, s;
  JS_FreeContext := λ s, s;
  JS_GetGlobalObject := alloc;
  JS_NewCFunction := λ f s, (VCFunction f, s);
  JS_Call := λ _ _ _ s, alloc s;
  JS_NewArrayBufferCopy := λ _ s, alloc s;
  JS_ReadObject := read_object;
  JS_WriteObject := write_object;
  JS_ResolveModule := λ _ s, (0, s);
  js_module_set_import_meta := λ _ _ _ s, s;
  js_free := λ s, s;
|}.

(** A fresh process: nothing cached, no handle taken, one file on disk. *)
Definition disk (path : string) : list Byte.byte + Error :=
  if String.eqb path "main.js"
  then inl (String.list_byte_of_string "1+1")
  else inr (PathError path).

Definition world0 : World (Callback := nat) (AsyncCallback := nat) :=
  {| engine := {| pending := None; allocated := 0 |};
     context := {| globals := None; proxy := None; asyncProxy := None |};
     handleIdx := 0; handles := ∅; fs := disk; trace := [] |}.

End Sim.

(** The two further entry points on the simulated engine: bytecode runs
    like the script it was compiled from, atoms are their index. *)
Module SimX.

Definition eval_function (v : Sim.value) (s : Sim.state) : Sim.value * Sim.state :=
  match v with
  | Sim.VBytecode code =>
      if String.prefix "throw" code then Sim.raise code s else Sim.alloc s
  | _ => Sim.raise "TypeError: bytecode function expected" s
  end.

#[export] Instance entry_points : EngineX Sim.abi :=
  @Build_EngineX Sim.abi Z eval_function (λ n s, (n, s)).

(** The simulated engine on a host where no module can be linked:
    [JS_ResolveModule] fails, everything else is as before. *)
Definition unlinked : Engine := {|
  ES := Sim.state;
  JSValue := Sim.value;
  JS_EVAL_TYPE_GLOBAL := 0;
  JS_EVAL_TYPE_MODULE := 1;
  JS_EVAL_FLAG_STRICT := 8;
  JS_EVAL_FLAG_STRIP := 16;
  JS_EVAL_FLAG_COMPILE_ONLY := 32;
  JS_TAG_MODULE := -3;
  JS_TAG_EXCEPTION := 6;
  JS_TAG_distinct := ltac:(discriminate);
  ValueGetTag := Sim.tag;
  JS_NewNull := Sim.VNull;
  JS_NewInt64 := Sim.VInt;
  JS_DetectModule := Sim.detect_module;
  JS_Eval := Sim.eval;
  js_std_await := λ v s, (v, s);
  JS_GetException := Sim.get_exception;
  Value_Error := Sim.value_error;
  JS_FreeValue := λ _ s, s;
  JS_FreeContext := λ s, s;
  JS_GetGlobalObject := Sim.alloc;
  JS_NewCFunction := λ f s, (Sim.VCFunction f, s);
  JS_Call := λ _ _ _ s, Sim.alloc s;
  JS_NewArrayBufferCopy := λ _ s, Sim.alloc s;
  JS_ReadObject := Sim.read_object;
  JS_WriteObject := Sim.write_object;
  JS_ResolveModule := λ _ s,
    (-1, {| Sim.pending := Some "ReferenceError: could not load module";
            Sim.allocated := Sim.allocated s |});
  js_module_set_import_meta := λ _ _ _ s, s;
  js_free := λ s, s;
|}.

(** The simulated engine with thrown primitives kept as they are: after
    [throw 1] the pending exception is the number 1, which is no Error
    object, so [Value.Error] has no host error for it. *)
Definition thrown (msg : string) : Sim.value :=
  if String.eqb msg "throw 1" then Sim.VInt 1 else Sim.VError msg.

Definition get_thrown (s : Sim.state) : Sim.value * Sim.state :=
  (match Sim.pending s with Some msg => thrown msg | None => Sim.VNull end,
   {| Sim.pending := None; Sim.allocated := Sim.allocated s |}).

Definition primitives : Engine := {|
  ES := Sim.state;
  JSValue := Sim.value;
  JS_EVAL_TYPE_GLOBAL := 0;
  JS_EVAL_TYPE_MODULE := 1;
  JS_EVAL_FLAG_STRICT := 8;
  JS_EVAL_FLAG_STRIP := 16;
  JS_EVAL_FLAG_COMPILE_ONLY := 32;
  JS_TAG_MODULE := -3;
  JS_TAG_EXCEPTION := 6;
  JS_TAG_distinct := ltac:(discriminate);
  ValueGetTag := Sim.tag;
  JS_NewNull := Sim.VNull;
  JS_NewInt64 := Sim.VInt;
  JS_DetectModule := Sim.detect_module;
  JS_Eval := Sim.eval;
  js_std_await := λ v s, (v, s);
  JS_GetException := get_thrown;
  Value_Error := Sim.value_error;
  JS_FreeValue := λ _ s, s;
  JS_FreeContext := λ s, s;
  JS_GetGlobalObject := Sim.alloc;
  JS_NewCFunction := λ f s, (Sim.VCFunction f, s);
  JS_Call := λ _ _ _ s, Sim.alloc s;
  JS_NewArrayBufferCopy := λ _ s, Sim.alloc s;
  JS_ReadObject := Sim.read_object;
  JS_WriteObject := Sim.write_object;
  JS_ResolveModule := λ _ s, (0, s);
  js_module_set_import_meta := λ _ _ _ s, s;
  js_free := λ s, s;
|}.

Definition primitive_world : World (E := primitives) (Callback := nat) (AsyncCallback := nat) :=
  @Build_World primitives nat nat
    {| Sim.pending := None; Sim.allocated := 0 |}
    (@Build_Context primitives None None None) 0 ∅ Sim.disk [].

Definition unlinked_world : World (E := unlinked) (Callback := nat) (AsyncCallback := nat) :=
  @Build_World unlinked nat nat
    {| Sim.pending := None; Sim.allocated := 0 |}
    (@Build_Context unlinked None None None) 0 ∅ Sim.disk [].

End SimX.

(** * Properties *)

Section Properties.

Context {E : Engine} {Callback AsyncCallback : Type}.

#[local] Abbreviation World := (World (Callback := Callback) (AsyncCallback := AsyncCallback)).

(** Unfolds the monad and the ABI wrappers down to explicit worlds. *)
Ltac run :=
  unfold Free, Error_of, os_ReadFile, get_context, put_context, panic,
    C_JS_Eval, C_js_std_await, C_JS_GetException, C_JS_FreeValue,
    C_JS_FreeContext, C_JS_GetGlobalObject, C_JS_NewCFunction, C_JS_Call,
    C_JS_NewArrayBufferCopy, C_JS_ReadObject, C_JS_WriteObject,
    C_JS_ResolveModule, C_js_module_set_import_meta, C_js_free,
    call, call_, defer, mbind, M_bind, mret, M_ret in *;
  cbn [engine context handleIdx handles fs trace set_engine set_context
       set_handles log final ref fst snd globals proxy asyncProxy] in *.

(** ** Options *)

(** C8. With no options, [Eval] works from: global scope on, module type,
    strict, strip and compile-only off, filename ["<input>"], await off.  Each
    mutator sets its own field to its argument and leaves the six others as
    they were; two mutators of different fields commute. *)
Theorem EvalOptions_defaults_and_mutators :
  apply_opts [] Eval_defaults =
    {| js_eval_type_global := true; js_eval_type_module := false;
       js_eval_flag_strict := false; js_eval_flag_strip := false;
       js_eval_flag_compile_only := false; filename := "<input>"; await := false |}
  ∧ (∀ (code : string) (w : World),
       ∃ evs, trace (final (Eval code [] w)) =
                trace w ++ EvEval code "<input>" (Eval_cFlag code Eval_defaults) :: evs
              ∧ Forall (λ ev, is_evaluation ev = false) evs)
  ∧ (∀ (o : EvalOptions) (n : OptionName),
       js_eval_type_global (mutator n o) =
         match n with OGlobal b => b | _ => js_eval_type_global o end
       ∧ js_eval_type_module (mutator n o) =
         match n with OModule b => b | _ => js_eval_type_module o end
       ∧ js_eval_flag_strict (mutator n o) =
         match n with OStrict b => b | _ => js_eval_flag_strict o end
       ∧ js_eval_flag_strip (mutator n o) =
         match n with OStrip b => b | _ => js_eval_flag_strip o end
       ∧ js_eval_flag_compile_only (mutator n o) =
         match n with OCompileOnly b => b | _ => js_eval_flag_compile_only o end
       ∧ filename (mutator n o) =
         match n with OFileName s => s | _ => filename o end
       ∧ await (mutator n o) =
         match n with OAwait b => b | _ => await o end)
  ∧ (∀ (o : EvalOptions) (n m : OptionName),
       field n ≠ field m →
       apply_opts [mutator n; mutator m] o = apply_opts [mutator m; mutator n] o).
Proof.
  split; [reflexivity|]. split; [|split].
  - intros code w. unfold Eval. cbn [apply_opts foldl Eval_defaults await filename].
    run. destruct (IsException _).
    + unfold Exception. run. eexists. rewrite <- !app_assoc. split; [reflexivity|].
      repeat constructor.
    + eexists. split; [reflexivity|]. constructor.
  - intros o n. destruct n; repeat split; reflexivity.
  - intros o n m Hnm. destruct n, m; try reflexivity; exfalso; apply Hnm; reflexivity.
Qed.

(** ** Bit facts about the flag word *)

Lemma land_lor_same (a c : Z) : Z.land (Z.lor a c) c = c.
Proof.
  apply Z.bits_inj'. intros n _.
  rewrite Z.land_spec, Z.lor_spec. destruct (Z.testbit a n), (Z.testbit c n); reflexivity.
Qed.

Lemma land_lor_keep (a b c : Z) : Z.land a c = c → Z.land (Z.lor a b) c = c.
Proof.
  intros H. apply Z.bits_inj'. intros n _.
  apply (f_equal (λ z, Z.testbit z n)) in H. revert H.
  rewrite !Z.land_spec, Z.lor_spec.
  destruct (Z.testbit a n), (Z.testbit b n), (Z.testbit c n); auto.
Qed.

Lemma Eval_flags_requested (o : EvalOptions) :
  (js_eval_type_global o = true →
     Z.land (Eval_flags o) JS_EVAL_TYPE_GLOBAL = JS_EVAL_TYPE_GLOBAL)
  ∧ (js_eval_type_module o = true →
     Z.land (Eval_flags o) JS_EVAL_TYPE_MODULE = JS_EVAL_TYPE_MODULE)
  ∧ (js_eval_flag_strict o = true →
     Z.land (Eval_flags o) JS_EVAL_FLAG_STRICT = JS_EVAL_FLAG_STRICT)
  ∧ (js_eval_flag_strip o = true →
     Z.land (Eval_flags o) JS_EVAL_FLAG_STRIP = JS_EVAL_FLAG_STRIP)
  ∧ (js_eval_flag_compile_only o = true →
     Z.land (Eval_flags o) JS_EVAL_FLAG_COMPILE_ONLY = JS_EVAL_FLAG_COMPILE_ONLY).
Proof.
  unfold Eval_flags.
  repeat split; intros ->;
    repeat match goal with
           | |- Z.land (if ?b then _ else _) _ = _ => destruct b
           | |- Z.land (Z.lor _ ?c) ?c = ?c => apply land_lor_same
           | |- Z.land (Z.lor _ _) _ = _ => apply land_lor_keep
           end.
Qed.

(** ** The Exception Bridge and [Eval], run *)

Lemma Exception_run (w : World) :
  ∃ w', Exception w = Returned (bridge_error (engine w)) w'
        ∧ same_host w w'
        ∧ trace w' = trace w ++ [EvGetException; EvFreeValue (JS_GetException (engine w)).1].
Proof.
  unfold Exception. run. eexists. split; [reflexivity|].
  split; [repeat split|]. cbn. by rewrite <- app_assoc.
Qed.

(** [Eval] always returns.  It makes one [JS_Eval] call, with the filename
    and flag word of the options, followed by the await when asked for; the
    error is nil for a value without the exception tag, and otherwise what
    the Exception Bridge yields right after the evaluation. *)
Lemma Eval_run (code : string) (opts : list EvalOption) (w : World) :
  let options := apply_opts opts Eval_defaults in
  ∃ (r : JSValue) (w1 : World),
    same_host w w1
    ∧ (∃ evs, trace w1 =
                trace w ++ EvEval code (filename options) (Eval_cFlag code options) :: evs
              ∧ Forall (λ ev, is_eval ev = false) evs
              ∧ (await options = false → evs = []))
    ∧ ((IsException r = false
        ∧ Eval code opts w = Returned ({| ref := r |}, None) w1)
       ∨ (IsException r = true
          ∧ ∃ w2, Exception w1 = Returned (bridge_error (engine w1)) w2
                  ∧ same_host w w2
                  ∧ trace w2 = trace w1 ++ [EvGetException;
                                            EvFreeValue (JS_GetException (engine w1)).1]
                  ∧ Eval code opts w =
                      Returned ({| ref := r |}, bridge_error (engine w1)) w2)).
Proof.
  intros options. unfold Eval. fold options.
  destruct (await options) eqn:Haw; run;
    match goal with
    | |- context [(if IsException ?v then _ else _) ?W] =>
        exists v, W; destruct (IsException v) eqn:Hex;
        (split; [repeat split|]); (split; [|
          first [ left; split; [reflexivity | reflexivity]
                | right; split; [reflexivity|];
                  destruct (Exception_run W) as (w2 & HE & Hh & Ht);
                  exists w2; rewrite HE; repeat split; solve [apply Hh | exact Ht] ] ])
    end;
    eexists; cbn [trace set_engine log]; rewrite <- ?app_assoc;
    (split; [reflexivity|]); split; first [discriminate | reflexivity | repeat constructor].
Qed.

Lemma Eval_trace (code : string) (opts : list EvalOption) (w : World) :
  let options := apply_opts opts Eval_defaults in
  ∃ evs, trace (final (Eval code opts w)) =
           trace w ++ EvEval code (filename options) (Eval_cFlag code options) :: evs
         ∧ Forall (λ ev, is_eval ev = false) evs.
Proof.
  intros options.
  destruct (Eval_run code opts w) as (r & w1 & _ & (evs & Ht & Hevs & _) & Hcases).
  fold options in Ht.
  destruct Hcases as [(_ & ->) | (_ & w2 & _ & _ & Ht2 & ->)]; cbn [final].
  - exists evs. split; assumption.
  - exists (evs ++ [EvGetException; EvFreeValue (JS_GetException (engine w1)).1]).
    rewrite Ht2, Ht, <- app_assoc. split; [reflexivity|].
    apply Forall_app. split; [assumption | repeat constructor].
Qed.

Lemma apply_opts_snoc (opts : list EvalOption) (fn : EvalOption) (o : EvalOptions) :
  apply_opts (opts ++ [fn]) o = fn (apply_opts opts o).
Proof. unfold apply_opts. by rewrite foldl_app. Qed.

Lemma Eval_result (code : string) (opts : list EvalOption) (w : World) :
  let options := apply_opts opts Eval_defaults in
  let result := evaluation code options (engine w) in
  ∃ err w', Eval code opts w = Returned ({| ref := result.1 |}, err) w'
            ∧ same_host w w'
            ∧ err = (if IsException result.1 then bridge_error result.2 else None)
            ∧ (IsException result.1 = true →
               ∃ w1, engine w1 = result.2 ∧ Exception w1 = Returned err w').
Proof.
  intros options result. subst result. unfold evaluation, Eval. fold options.
  destruct (await options); run;
    match goal with
    | |- context [(if IsException ?v then _ else _) ?W] =>
        destruct (IsException v) eqn:Hex;
        [ destruct (Exception_run W) as (w2 & HE & Hh & Ht); rewrite HE;
          eexists _, w2; split; [reflexivity|]; split; [apply Hh|];
          split; [reflexivity|]; intros _; exists W; split; [reflexivity | exact HE]
        | eexists _, W; split; [reflexivity|]; split; [repeat split|];
          split; [reflexivity | discriminate] ]
    end.
Qed.

(** C2. [Eval] hands back the engine's result Value together with an error
    that is nil when that Value has no exception tag, and that is otherwise
    what the Exception Bridge yields for the exception pending right after
    the evaluation.  So a non-nil error comes only with an exception-tagged
    Value, which is returned alongside it; an exception-tagged Value comes
    with a nil error when the bridge has no host error for what is pending. *)
Theorem Eval_error_only_if_exception (code : string) (opts : list EvalOption) (w : World) :
  let options := apply_opts opts Eval_defaults in
  let result := evaluation code options (engine w) in
  ∃ err w',
    Eval code opts w = Returned ({| ref := result.1 |}, err) w'
    ∧ err = (if IsException result.1 then bridge_error result.2 else None)
    ∧ (err ≠ None → IsException result.1 = true)
    ∧ (IsException result.1 = true →
       ∃ w1, engine w1 = result.2 ∧ Exception w1 = Returned err w')
    ∧ (IsException result.1 = false → err = None).
Proof.
  intros options result.
  destruct (Eval_result code opts w) as (err & w' & HE & _ & Herr & Hvia).
  fold options in HE, Herr, Hvia. fold result in HE, Herr, Hvia.
  exists err, w'. split; [exact HE|]. split; [exact Herr|].
  destruct (IsException result.1) eqn:Hex.
  - split; [reflexivity|]. split; [|discriminate]. intros _. by apply Hvia.
  - split; [intros Hne; contradiction|]. split; [discriminate | intros _; exact Herr].
Qed.

(** C5. When module syntax is detected in the source, the flag word [Eval]
    passes to its one [JS_Eval] call is the word built from the options with
    the module-type flag or-ed in: the module bits are set whatever the
    options say about module type, and every flag the options request is
    set as well. *)
Theorem Eval_forces_module_when_detected (code : string) (opts : list EvalOption) (w : World) :
  let options := apply_opts opts Eval_defaults in
  JS_DetectModule code ≠ 0 →
  ∃ flags evs,
    trace (final (Eval code opts w)) = trace w ++ EvEval code (filename options) flags :: evs
    ∧ Forall (λ ev, is_eval ev = false) evs
    ∧ flags = Z.lor (Eval_flags options) JS_EVAL_TYPE_MODULE
    ∧ Z.land flags JS_EVAL_TYPE_MODULE = JS_EVAL_TYPE_MODULE
    ∧ (js_eval_type_global options = true →
       Z.land flags JS_EVAL_TYPE_GLOBAL = JS_EVAL_TYPE_GLOBAL)
    ∧ (js_eval_flag_strict options = true →
       Z.land flags JS_EVAL_FLAG_STRICT = JS_EVAL_FLAG_STRICT)
    ∧ (js_eval_flag_strip options = true →
       Z.land flags JS_EVAL_FLAG_STRIP = JS_EVAL_FLAG_STRIP)
    ∧ (js_eval_flag_compile_only options = true →
       Z.land flags JS_EVAL_FLAG_COMPILE_ONLY = JS_EVAL_FLAG_COMPILE_ONLY).
Proof.
  intros options Hdet.
  destruct (Eval_flags_requested options) as (Hg & _ & Hs & Hp & Hc).
  assert (Hflag : Eval_cFlag code options = Z.lor (Eval_flags options) JS_EVAL_TYPE_MODULE).
  { unfold Eval_cFlag. destruct (decide _); [reflexivity | contradiction]. }
  destruct (Eval_trace code opts w) as (evs0 & Htr & Hev0).
  fold options in Htr. rewrite Hflag in Htr.
  exists (Z.lor (Eval_flags options) JS_EVAL_TYPE_MODULE), evs0.
  split; [exact Htr|]. split; [exact Hev0|]. split; [reflexivity|].
  split; [apply land_lor_same|].
  repeat split; intros H; apply land_lor_keep; auto.
Qed.

(** ** Modules *)

(** C1. What [LoadModule] does when its compile step yields an
    exception-tagged value: the tag test against the module tag fails first,
    so the call returns the null Value with the fixed error "not a module";
    the engine is left in the state the compile step produced, pending
    exception included, and no further call is made. *)
Theorem LoadModule_exception_reported_as_not_a_module
    (code moduleName : string) (w : World) :
  let cFlag := Z.lor JS_EVAL_TYPE_MODULE JS_EVAL_FLAG_COMPILE_ONLY in
  let compiled := JS_Eval code moduleName cFlag (engine w) in
  IsException compiled.1 = true →
  LoadModule code moduleName w =
    Returned (Null, Some (Errorf "not a module"))
      (set_engine compiled.2 (log (EvEval code moduleName cFlag) w)).
Proof.
  intros cFlag compiled Hex. unfold LoadModule. fold cFlag. run. fold compiled.
  apply bool_decide_eq_true in Hex.
  destruct (decide (ValueGetTag compiled.1 ≠ JS_TAG_MODULE)) as [_|Hmod]; [reflexivity|].
  exfalso. apply Hmod. rewrite Hex. apply JS_TAG_distinct.
Qed.

(** The bytecode path tests for the exception tag before the module tag and
    goes through the Exception Bridge. *)
Lemma LoadModuleBytecode_exception_via_bridge (buf : list Byte.byte) (w : World) :
  let read := JS_ReadObject buf (engine w) in
  IsException read.1 = true →
  ∃ w', LoadModuleBytecode buf w = Returned (Null, bridge_error read.2) w'
        ∧ trace w' = trace w ++ [EvReadObject buf; EvGetException;
                                 EvFreeValue (JS_GetException read.2).1; EvJsFree].
Proof.
  intros read Hex. unfold LoadModuleBytecode. run. fold read. rewrite Hex.
  match goal with |- context [Exception ?W] =>
    destruct (Exception_run W) as (w2 & HE & _ & Ht); rewrite HE end.
  eexists. split; [reflexivity|].
  cbn [trace set_engine log engine] in *. rewrite Ht, <- !app_assoc. reflexivity.
Qed.

(** ** Filenames *)

(** C4. What [EvalFile] does with filenames: the path is appended after the
    caller's options, so the filename of the one [JS_Eval] call is the path
    whatever filename the caller supplied. *)
Theorem EvalFile_filename_is_the_path
    (filePath : string) (opts : list EvalOption) (b : list Byte.byte) (w : World) :
  fs w filePath = inl b →
  ∃ flags evs,
    trace (final (EvalFile filePath opts w)) =
      trace w ++ EvEval (String.string_of_list_byte b) filePath flags :: evs
    ∧ Forall (λ ev, is_eval ev = false) evs.
Proof.
  intros Hfs. unfold EvalFile. run. rewrite Hfs.
  destruct (Eval_trace (String.string_of_list_byte b) (opts ++ [EvalFileName filePath]) w)
    as (evs & Ht & Hevs).
  rewrite apply_opts_snoc in Ht. cbn [filename EvalFileName] in Ht.
  eexists _, evs. split; [exact Ht | exact Hevs].
Qed.

(** [CompileFile] appends the path only when the options leave the filename
    empty. *)
Lemma CompileFile_filename_default
    (filePath : string) (opts : list EvalOption) (b : list Byte.byte) (w : World) :
  fs w filePath = inl b →
  CompileFile filePath opts w =
    Compile (String.string_of_list_byte b)
      (if decide (filename (apply_opts opts EvalOptions_zero) = "")
       then opts ++ [EvalFileName filePath] else opts) w.
Proof. intros Hfs. unfold CompileFile. run. by rewrite Hfs. Qed.

(** ** Teardown and the cached values *)

(** C6. [Close] returns, having made exactly these calls in this order: one
    free for the sync shim if it was created, one for the async shim if it
    was created, one for the global object if it was created, then the free
    of the context.  [Globals] is what creates the cached global object: it
    asks the engine once, when the cache is empty, and answers from the cache
    afterwards. *)
Theorem Close_frees_each_cached_value_once (w : World) :
  (∃ w', Close w = Returned tt w'
         ∧ trace w' = trace w ++ frees (proxy (context w))
                              ++ frees (asyncProxy (context w))
                              ++ frees (globals (context w))
                              ++ [EvFreeContext]
         ∧ same_host w w')
  ∧ (∀ g, globals (context w) = Some g → Globals w = Returned g w)
  ∧ (globals (context w) = None →
     ∃ g w', Globals w = Returned g w'
             ∧ globals (context w') = Some g
             ∧ proxy (context w') = proxy (context w)
             ∧ asyncProxy (context w') = asyncProxy (context w)
             ∧ trace w' = trace w ++ [EvGetGlobalObject]).
Proof.
  split; [|split].
  - unfold Close. run.
    destruct (proxy (context w)) as [p|], (asyncProxy (context w)) as [a|],
      (globals (context w)) as [g|]; run;
      (eexists; split; [reflexivity|]; split; [|repeat split]);
      cbn [trace set_engine log frees]; rewrite <- ?app_assoc; reflexivity.
  - intros g Hg. unfold Globals. run. rewrite Hg. reflexivity.
  - intros Hg. unfold Globals. run. rewrite Hg. run.
    eexists _, _. split; [reflexivity|]. cbn. repeat split.
Qed.

(** ** File-reading entry points *)

(** C9. When reading the file fails with [err], [EvalFile] and
    [LoadModuleFile] return the null Value with [err], and [CompileFile]
    returns a nil buffer with [err]; the world is left exactly as it was, so
    no call reached the engine. *)
Theorem file_read_error_passed_through
    (filePath moduleName : string) (opts : list EvalOption) (err : Error) (w : World) :
  fs w filePath = inr err →
  EvalFile filePath opts w = Returned (Null, Some err) w
  ∧ CompileFile filePath opts w = Returned (None, Some err) w
  ∧ LoadModuleFile filePath moduleName w = Returned (Null, Some err) w.
Proof.
  intros Hfs. unfold EvalFile, CompileFile, LoadModuleFile. run.
  rewrite Hfs. repeat split.
Qed.

(** ** ArrayBuffer *)

(** C10. [ArrayBuffer] indexes its argument at 0 before anything else: on a
    slice with at least one byte it makes the copy call and returns the
    engine's Value; on the empty slice it panics with an index-out-of-range
    runtime error and returns no Value. *)
Theorem ArrayBuffer_needs_nonempty_slice (w : World) :
  (∀ (b : Byte.byte) (bs : list Byte.byte),
     ArrayBuffer (b :: bs) w =
       Returned {| ref := (JS_NewArrayBufferCopy (b :: bs) (engine w)).1 |}
         (set_engine (JS_NewArrayBufferCopy (b :: bs) (engine w)).2
            (log (EvNewArrayBufferCopy (b :: bs)) w)))
  ∧ ArrayBuffer [] w =
      Panicked (PanicRuntime "index out of range [0] with length 0") w.
Proof.
  split; [intros b bs|]; reflexivity.
Qed.

(** ** Compilation *)

Lemma length_GoBytes (ptr : Z → Byte.byte) (n : Z) :
  0 ≤ n → Z.of_nat (length (GoBytes ptr n)) = n.
Proof.
  intros Hn. unfold GoBytes. rewrite length_fmap, length_seqZ. lia.
Qed.

(** Below 2^31 the [int] the code tests is the engine's byte count itself. *)
Lemma C_int_small (z : Z) : 0 ≤ z < 2 ^ 31 → C_int z = z.
Proof. intros Hz. unfold C_int. rewrite Z.mod_small; lia. Qed.

(** What [Compile] does once its evaluation has come back without error. *)
Lemma Compile_after_eval
    (code : string) (opts : list EvalOption) (w : World) (val : Value) (w1 : World) :
  Eval code (opts ++ [EvalFlagCompileOnly true]) w = Returned (val, None) w1 →
  let written := JS_WriteObject (ref val) (engine w1) in
  let ptr := written.1.1 in
  let size := C_int written.1.2 in
  let w2 := set_engine written.2 (log (EvWriteObject (ref val)) w1) in
  (size ≤ 0 →
   ∃ err w3 w',
     Exception w2 = Returned err w3
     ∧ err = bridge_error written.2
     ∧ Compile code opts w = Returned (None, err) w'
     ∧ trace w' = trace w3 ++ [EvJsFree; EvFreeValue (ref val)])
  ∧ (0 < size →
     ∃ buf w',
       Compile code opts w = Returned (Some buf, None) w'
       ∧ buf = GoBytes ptr size
       ∧ Z.of_nat (length buf) = size
       ∧ (0 ≤ written.1.2 < 2 ^ 31 → Z.of_nat (length buf) = written.1.2)
       ∧ trace w' = trace w2 ++ [EvJsFree; EvFreeValue (ref val)]).
Proof.
  intros HE written ptr size w2. subst ptr size w2.
  unfold Compile. run. rewrite HE. subst written.
  destruct (JS_WriteObject (ref val) (engine w1)) as [[ptr kSize] es].
  cbn [fst snd]. destruct (decide (C_int kSize ≤ 0)) as [Hle|Hgt]; split; try lia.
  - intros _.
    match goal with |- context [Exception ?W] =>
      destruct (Exception_run W) as (w3 & HX & _ & Ht) end.
    eexists _, w3, _. split; [exact HX|]. split; [reflexivity|].
    rewrite HX. split; [reflexivity|].
    cbn [trace set_engine log]. by rewrite <- app_assoc.
  - intros Hpos. eexists _, _. split; [reflexivity|]. split; [reflexivity|].
    split; [apply length_GoBytes; lia|].
    split; [intros Hk; rewrite length_GoBytes by lia; by apply C_int_small|].
    cbn [trace set_engine log]. by rewrite <- !app_assoc.
Qed.

(** C7. [Compile] evaluates with the compile-only option appended last, so
    the flag word of its one [JS_Eval] call has the compile-only bits set
    whatever the caller asked.  When that evaluation comes back without
    error the value is serialised, and with [size] the byte count as the
    code reads it ([C.int(kSize)]): for [size ≤ 0] the result is a nil buffer
    and the error the Exception Bridge yields right after the write, that is
    the host error for the exception pending in the state the write left;
    for
    [0 < size] it is the [size] bytes at the returned pointer, with a nil
    error, and [size] is the engine's own count whenever that count is below
    2^31.  Either way the C buffer and then the value are freed.  An error
    from the evaluation is returned as it is, with a nil buffer. *)
Theorem Compile_serializes_or_surfaces_exception
    (code : string) (opts : list EvalOption) (w : World) :
  let opts' := opts ++ [EvalFlagCompileOnly true] in
  let options := apply_opts opts' Eval_defaults in
  js_eval_flag_compile_only options = true
  ∧ Z.land (Eval_cFlag code options) JS_EVAL_FLAG_COMPILE_ONLY = JS_EVAL_FLAG_COMPILE_ONLY
  ∧ (∃ evs, trace (final (Compile code opts w)) =
              trace w ++ EvEval code (filename options) (Eval_cFlag code options) :: evs
            ∧ Forall (λ ev, is_eval ev = false) evs)
  ∧ (∀ (val : Value) (w1 : World),
       Eval code opts' w = Returned (val, None) w1 →
       let written := JS_WriteObject (ref val) (engine w1) in
       let ptr := written.1.1 in
       let size := C_int written.1.2 in
       let w2 := set_engine written.2 (log (EvWriteObject (ref val)) w1) in
       (size ≤ 0 →
        ∃ err w3 w',
          Exception w2 = Returned err w3
          ∧ err = bridge_error written.2
          ∧ Compile code opts w = Returned (None, err) w'
          ∧ trace w' = trace w3 ++ [EvJsFree; EvFreeValue (ref val)])
       ∧ (0 < size →
          ∃ buf w',
            Compile code opts w = Returned (Some buf, None) w'
            ∧ buf = GoBytes ptr size
            ∧ Z.of_nat (length buf) = size
            ∧ (0 ≤ written.1.2 < 2 ^ 31 → Z.of_nat (length buf) = written.1.2)
            ∧ trace w' = trace w2 ++ [EvJsFree; EvFreeValue (ref val)]))
  ∧ (∀ (val : Value) (e : Error) (w1 : World),
       Eval code opts' w = Returned (val, Some e) w1 →
       Compile code opts w = Returned (None, Some e) w1).
Proof.
  intros opts' options.
  assert (Hco : js_eval_flag_compile_only options = true).
  { unfold options, opts'. rewrite apply_opts_snoc. reflexivity. }
  split; [exact Hco|]. split.
  { unfold Eval_cFlag. destruct (decide _).
    - apply land_lor_keep. by apply Eval_flags_requested.
    - by apply Eval_flags_requested. }
  split; [|split].
  - destruct (Eval_trace code opts' w) as (evs & Ht & Hevs). fold options in Ht.
    destruct (Eval code opts' w) as [[val [e|]] w1|p w1] eqn:HE; cbn [final] in Ht.
    + exists evs. unfold Compile. fold opts'. run. rewrite HE. split; assumption.
    + destruct (Compile_after_eval code opts w val w1 HE) as [Hle Hgt].
      destruct (Z_le_gt_dec (C_int (JS_WriteObject (ref val) (engine w1)).1.2) 0) as [H|H].
      * destruct (Hle H) as (err & w3 & w' & HX & _ & -> & Ht').
        match type of HX with Exception ?W = _ =>
          destruct (Exception_run W) as (w3' & HX' & _ & Ht3) end.
        rewrite HX in HX'. injection HX' as _ <-.
        cbn [final]. rewrite Ht', Ht3. cbn [trace set_engine log].
        rewrite Ht, <- !app_assoc. eexists. split; [reflexivity|].
        apply Forall_app. split; [assumption | repeat constructor].
      * destruct (Hgt ltac:(lia)) as (buf & w' & -> & _ & _ & _ & Ht').
        cbn [final]. rewrite Ht'. cbn [trace set_engine log].
        rewrite Ht, <- !app_assoc. eexists. split; [reflexivity|].
        apply Forall_app. split; [assumption | repeat constructor].
    + destruct (Eval_result code opts' w) as (? & ? & HE' & _). congruence.
  - intros val w1 HE. exact (Compile_after_eval code opts w val w1 HE).
  - intros val e w1 HE. unfold Compile. fold opts'. run. by rewrite HE.
Qed.

(** ** Registrations of host closures *)

Lemma installs_app (f : CFunction) (evs evs' : list Event) :
  installs f (evs ++ evs') = (installs f evs + installs f evs')%nat.
Proof. unfold installs. by rewrite List.filter_app, length_app. Qed.

(** [Eval] without options: one [JS_Eval], then the bridge's two calls when
    the result carries the exception tag. *)
Lemma Eval_plain (code : string) (w : World) :
  ∃ val err w' evs,
    Eval code [] w = Returned (val, err) w'
    ∧ same_host w w'
    ∧ trace w' = trace w ++ EvEval code "<input>" (Eval_cFlag code Eval_defaults) :: evs
    ∧ (evs = [] ∨ ∃ exc, evs = [EvGetException; EvFreeValue exc]).
Proof.
  destruct (Eval_run code [] w) as (r & w1 & Hh & (evs & Ht & _ & Hnil) & Hcases).
  cbn [apply_opts foldl Eval_defaults await filename] in *.
  rewrite (Hnil eq_refl) in Ht.
  destruct Hcases as [(_ & HE) | (_ & w2 & _ & Hh2 & Ht2 & HE)].
  - eexists _, _, w1, []. split; [exact HE|]. split; [exact Hh|]. split; [exact Ht|]. by left.
  - eexists _, _, w2, _. split; [exact HE|]. split; [exact Hh2|].
    rewrite Ht2, Ht, <- app_assoc. split; [reflexivity|]. right. eexists. reflexivity.
Qed.

Lemma register_step (r : Registration) (w : World) :
  ∃ evs,
    trace (final (register r w)) = trace w ++ evs
    ∧ (∀ f, f ≠ entry r →
         shim f (context (final (register r w))) = shim f (context w)
         ∧ installs f evs = 0%nat)
    ∧ match shim (entry r) (context w) with
      | Some p =>
          shim (entry r) (context (final (register r w))) = Some p
          ∧ installs (entry r) evs = 0%nat
      | None =>
          ∃ evs', evs = EvNewCFunction (entry r) :: evs'
                  ∧ installs (entry r) evs' = 0%nat
                  ∧ shim (entry r) (context (final (register r w))) =
                      Some {| ref := (JS_NewCFunction (entry r) (engine w)).1 |}
      end.
Proof.
  destruct r as [fn|fn]; unfold register, Function, AsyncFunction, cgo_NewHandle, deref; run;
    cbn [entry shim];
    [destruct (proxy (context w)) as [p|] eqn:Hp
    |destruct (asyncProxy (context w)) as [p|] eqn:Hp]; run;
    (destruct (decide _); run;
     [|destruct (decide _); run;
       [|rewrite ?Hp;
         match goal with |- context [Eval ?c [] ?W] =>
           destruct (Eval_plain c W) as (val & err & w' & evs0 & HE & (Hc & _) & Ht & Hevs);
           rewrite HE end;
         cbn [context trace set_handles set_engine set_context log] in Hc, Ht;
         destruct err as [e|]; run; rewrite Ht, Hc, <- ?app_assoc;
         destruct Hevs as [-> | [exc ->]] ]]);
    cbn [proxy asyncProxy];
    (eexists; split; [first [reflexivity | by rewrite app_nil_r]|];
     split; [intros []; done|];
     first [done | eexists; split; [reflexivity|]; done]).
Qed.

Lemma register_installs (r : Registration) (w : World) :
  ∃ evs,
    trace (final (register r w)) = trace w ++ evs
    ∧ is_Some (shim (entry r) (context (final (register r w))))
    ∧ ∀ f, (installs f evs ≤ 1)%nat
           ∧ (is_Some (shim f (context w)) →
              installs f evs = 0%nat
              ∧ shim f (context (final (register r w))) = shim f (context w))
           ∧ (f ≠ entry r →
              installs f evs = 0%nat
              ∧ shim f (context (final (register r w))) = shim f (context w)).
Proof.
  destruct (register_step r w) as (evs & Ht & Hother & Hown).
  exists evs. split; [exact Ht|].
  destruct (shim (entry r) (context w)) as [p|] eqn:Hs.
  - destruct Hown as [Hkeep H0]. split; [by rewrite Hkeep|].
    intros f. destruct (decide (f = entry r)) as [->|Hne].
    + rewrite H0, Hkeep, Hs. split; [lia|]. split; [done|]. intros Hne. done.
    + destruct (Hother f Hne) as [Hk Hi]. rewrite Hi, Hk. split; [lia|]. done.
  - destruct Hown as (evs' & -> & H0 & Hnew). split; [by rewrite Hnew|].
    intros f. destruct (decide (f = entry r)) as [->|Hne].
    + rewrite Hs. split; [|split; [intros [? ?]; done | done]].
      change (EvNewCFunction (entry r) :: evs') with ([EvNewCFunction (entry r)] ++ evs').
      rewrite installs_app, H0. destruct (entry r); cbn; lia.
    + destruct (Hother f Hne) as [Hk Hi]. rewrite Hi, Hk. split; [lia|]. done.
Qed.

Lemma registrations_installs (rs : list Registration) (w : World) :
  ∃ evs,
    trace (final (mapM register rs w)) = trace w ++ evs
    ∧ ∀ f, (installs f evs ≤ 1)%nat
           ∧ (is_Some (shim f (context w)) → installs f evs = 0%nat).
Proof.
  revert w. induction rs as [|r rs IH]; intros w.
  - exists []. cbn. rewrite app_nil_r. split; [done|]. intros f. cbn. split; [lia|done].
  - destruct (register_installs r w) as (evs1 & Ht1 & Hnow & Hf).
    cbn [mapM]. unfold mbind at 1, M_bind at 1.
    destruct (register r w) as [v w1|p w1] eqn:Hr; cbn [final] in *.
    + destruct (IH w1) as (evs2 & Ht2 & Hf2).
      exists (evs1 ++ evs2). split.
      { unfold mbind, M_bind, mret, M_ret in *.
        destruct (mapM register rs w1); cbn [final] in *;
          by rewrite Ht2, Ht1, app_assoc. }
      intros f. rewrite installs_app.
      destruct (Hf f) as (Hle & Hcached & Hother), (Hf2 f) as (Hle2 & Hcached2).
      destruct (decide (f = entry r)) as [->|Hne].
      * rewrite (Hcached2 Hnow). split; [lia|].
        intros Hs. destruct (Hcached Hs) as [-> _]. done.
      * destruct (Hother Hne) as [-> Hk]. rewrite Hk in Hcached2. split; [lia|].
        intros Hs. by rewrite (Hcached2 Hs).
    + exists evs1. split; [exact Ht1|]. intros f. destruct (Hf f) as (Hle & Hcached & _).
      split; [exact Hle|]. intros Hs. by destruct (Hcached Hs).
Qed.

Lemma snoc2_eq {A} (l l' evs : list A) (a b : A) :
  l' = l ++ evs → (l' ++ [a]) ++ [b] = l ++ evs ++ [a; b].
Proof. intros ->. by rewrite <- !app_assoc. Qed.

Lemma cgo_NewHandle_returned (obj : HandleObj) (w : World) (h : Z) (w1 : World) :
  0 ≤ handleIdx w < 2 ^ 64 →
  cgo_NewHandle obj w = Returned h w1 →
  h = handleIdx w + 1 ∧ h < 2 ^ 64
  ∧ w1 = set_handles h (<[h := obj]> (handles w)) w.
Proof.
  intros Hidx. unfold cgo_NewHandle.
  destruct (decide _) as [|Hnz]; [discriminate|]. intros [= <- <-].
  destruct (decide (handleIdx w + 1 = 2 ^ 64)) as [Heq|Hne].
  - rewrite Heq, Z.mod_same in Hnz by lia. done.
  - rewrite Z.mod_small by lia. repeat split. lia.
Qed.

Lemma register_handles (r : Registration) (w : World) (v : Value) (w' : World) :
  registry_ok w →
  register r w = Returned v w' →
  let h1 := handleIdx w + 1 in
  let h2 := handleIdx w + 2 in
  handles w !! h1 = None
  ∧ handles w !! h2 = None
  ∧ handles w' = <[h2 := HContext]> (<[h1 := closure r]> (handles w))
  ∧ registry_ok w'
  ∧ ∃ p wrapper evs,
      shim (entry r) (context w') = Some p
      ∧ trace w' = trace w ++ evs ++
          [EvCall wrapper JS_NewNull [ref p; JS_NewInt64 (int64 h1); JS_NewInt64 (int64 h2)];
           EvFreeValue wrapper].
Proof.
  intros (Hidx & Hkeys) Hreg h1 h2.
  assert (Hfresh : ∀ h, handleIdx w < h → handles w !! h = None).
  { intros h Hh. destruct (handles w !! h) as [o|] eqn:Ho; [|done].
    apply Hkeys in Ho. lia. }
  split; [apply Hfresh; lia|]. split; [apply Hfresh; lia|].
  destruct r as [fn|fn]; unfold register, Function, AsyncFunction, deref in Hreg; run;
    cbn [entry shim closure];
    [destruct (proxy (context w)) as [p|] eqn:Hp
    |destruct (asyncProxy (context w)) as [p|] eqn:Hp]; run;
    (destruct (cgo_NewHandle _ _) as [a W1|] eqn:H1 in Hreg; [|discriminate]);
    (apply cgo_NewHandle_returned in H1 as (-> & Hlt1 & ->); [|exact Hidx]);
    (destruct (cgo_NewHandle _ _) as [a W2|] eqn:H2 in Hreg; [|discriminate]);
    (apply cgo_NewHandle_returned in H2 as (-> & Hlt2 & ->);
       [|cbn [handleIdx set_handles set_context set_engine log] in *; lia]);
    run; rewrite ?Hp in Hreg; cbn beta iota in Hreg;
    match type of Hreg with context [Eval ?c [] ?W] =>
      pose proof (Eval_plain c W) as HH end;
    destruct HH as (val & err & w1 & evs0 & HE & (Hc & Hi & Hh & _) & Ht & _);
    rewrite HE in Hreg;
    (destruct err as [e|]; run; [discriminate|]);
    injection Hreg as <- <-;
    unfold registry_ok;
    cbn [context handleIdx handles trace set_handles set_engine set_context log
         proxy asyncProxy] in *;
    rewrite Hh, Hc, Hi, Ht;
    replace (handleIdx w + 1 + 1) with h2 in * by (unfold h2; lia); fold h1;
    (split; [reflexivity|]); split.
  all: try (split; [unfold h2; lia|]; intros h o Hl;
            destruct (decide (h = h2)) as [->|]; [unfold h2; lia|];
            rewrite lookup_insert_ne in Hl by done;
            destruct (decide (h = h1)) as [->|]; [unfold h1, h2; lia|];
            rewrite lookup_insert_ne in Hl by done;
            apply Hkeys in Hl; unfold h2; lia).
  all: eexists _, _, _; (split; [first [exact Hp | reflexivity]|]);
    apply snoc2_eq; first [reflexivity | by rewrite <- (app_assoc (trace w))].
Qed.

Lemma cgo_NewHandle_ok (obj : HandleObj) (w : World) :
  0 ≤ handleIdx w → handleIdx w + 1 < 2 ^ 64 →
  cgo_NewHandle obj w =
    Returned (handleIdx w + 1)
      (set_handles (handleIdx w + 1) (<[handleIdx w + 1 := obj]> (handles w)) w).
Proof.
  intros H0 H1. unfold cgo_NewHandle. rewrite Z.mod_small by lia.
  destruct (decide _); [lia | reflexivity].
Qed.

(** With room for two more indices, the two handles are taken whether the
    registration then returns or panics on its wrapper. *)
Lemma register_takes_two_handles (r : Registration) (w : World) :
  0 ≤ handleIdx w → handleIdx w + 2 < 2 ^ 64 →
  handles (final (register r w)) =
    <[handleIdx w + 2 := HContext]> (<[handleIdx w + 1 := closure r]> (handles w)).
Proof.
  intros H0 H2.
  destruct r as [fn|fn]; unfold register, Function, AsyncFunction, deref; run;
    cbn [closure];
    [destruct (proxy (context w)) as [p|] eqn:Hp
    |destruct (asyncProxy (context w)) as [p|] eqn:Hp]; run;
    (rewrite cgo_NewHandle_ok by (cbn [handleIdx set_context set_engine log]; lia));
    run;
    (rewrite cgo_NewHandle_ok by (cbn [handleIdx set_handles set_context set_engine log]; lia));
    run; rewrite ?Hp; cbn beta iota;
    match goal with |- context [Eval ?c [] ?W] =>
      destruct (Eval_plain c W) as (val & err & w1 & evs0 & HE & (_ & _ & Hh & _) & _ & _);
      rewrite HE end;
    destruct err as [e|]; run; rewrite Hh;
    cbn [handles handleIdx set_handles set_context set_engine log];
    replace (handleIdx w + 1 + 1) with (handleIdx w + 2) by lia; reflexivity.
Qed.

(** C3. Over any sequence of registrations on a Context, each shim is
    installed at most once, and not at all if it was already cached.  A
    single registration installs its shim only when the cache is empty, as
    its first engine call, and leaves it cached; with a cached shim it
    installs nothing and keeps the cached one.  A registration that returns
    has taken two handles that were free before, the first bound to the
    closure and the second to the Context, and has called the wrapper with
    the cached shim and these two handles.  The two handles are taken even
    when the registration panics on its wrapper, as long as the counter has
    room for them. *)
Theorem registrations_share_one_shim (rs : list Registration) (w : World) :
  (∃ evs,
     trace (final (mapM register rs w)) = trace w ++ evs
     ∧ ∀ f, (installs f evs ≤ 1)%nat
            ∧ (is_Some (shim f (context w)) → installs f evs = 0%nat))
  ∧ (∀ r, ∃ evs,
       trace (final (register r w)) = trace w ++ evs
       ∧ match shim (entry r) (context w) with
         | Some p =>
             shim (entry r) (context (final (register r w))) = Some p
             ∧ installs (entry r) evs = 0%nat
         | None =>
             ∃ evs', evs = EvNewCFunction (entry r) :: evs'
                     ∧ installs (entry r) evs' = 0%nat
                     ∧ shim (entry r) (context (final (register r w))) =
                         Some {| ref := (JS_NewCFunction (entry r) (engine w)).1 |}
         end)
  ∧ (∀ r v w',
       registry_ok w →
       register r w = Returned v w' →
       let h1 := handleIdx w + 1 in
       let h2 := handleIdx w + 2 in
       handles w !! h1 = None
       ∧ handles w !! h2 = None
       ∧ handles w' = <[h2 := HContext]> (<[h1 := closure r]> (handles w))
       ∧ registry_ok w'
       ∧ ∃ p wrapper evs,
           shim (entry r) (context w') = Some p
           ∧ trace w' = trace w ++ evs ++
               [EvCall wrapper JS_NewNull
                  [ref p; JS_NewInt64 (int64 h1); JS_NewInt64 (int64 h2)];
                EvFreeValue wrapper])
  ∧ (∀ r,
       registry_ok w →
       handleIdx w + 2 < 2 ^ 64 →
       handles (final (register r w)) =
         <[handleIdx w + 2 := HContext]> (<[handleIdx w + 1 := closure r]> (handles w))).
Proof.
  split; [apply registrations_installs|]. split; [|split].
  - intros r. destruct (register_step r w) as (evs & Ht & _ & Hown). eauto.
  - intros r v w' Hok Hreg. exact (register_handles r w v w' Hok Hreg).
  - intros r [[H0 _] _] H2. by apply register_takes_two_handles.
Qed.

End Properties.

(** * The properties on the simulated engine *)

Import Sim.

(** A module source that does not parse, loaded as a module. *)
Lemma LoadModule_exception_reported_as_not_a_module_witness :
  IsException (JS_Eval "import {" "m.js" 33 (engine world0)).1 = true
  ∧ LoadModule "import {" "m.js" world0 =
      Returned (Null, Some (Errorf "not a module"))
        (set_engine (JS_Eval "import {" "m.js" 33 (engine world0)).2
           (log (EvEval "import {" "m.js" 33) world0)).
Proof.
  split; [reflexivity|].
  apply (LoadModule_exception_reported_as_not_a_module "import {" "m.js" world0).
  reflexivity.
Defined.

(** A script that throws an Error, evaluated without options: the error is
    the bridge's. *)
Lemma Eval_error_only_if_exception_witness :
  IsException (evaluation "throw new Error" Eval_defaults (engine world0)).1 = true
  ∧ ∃ w',
      Eval "throw new Error" [] world0 =
        Returned ({| ref := VException |}, Some (ScriptError "throw new Error")) w'.
Proof.
  split; [reflexivity|].
  destruct (Eval_error_only_if_exception "throw new Error" [] world0)
    as (err & w' & HE & Herr & _).
  exists w'. rewrite HE, Herr. reflexivity.
Defined.

(** A script that throws a number, on an engine whose pending exception is
    then that number: the Value is exception-tagged and the error is nil. *)
Lemma Eval_exception_with_nil_error :
  ∃ val w',
    Eval "throw 1" [] SimX.primitive_world = Returned (val, None) w'
    ∧ IsException (ref val) = true.
Proof.
  eexists _, _. split.
  - match goal with |- ?l = _ => let l' := eval hnf in l in change l with l' end.
    reflexivity.
  - reflexivity.
Defined.

(** The first registration of a fresh process. *)
Lemma registrations_share_one_shim_witness :
  registry_ok world0
  ∧ ∃ v w',
      register (Sync 7%nat) world0 = Returned v w'
      ∧ handles world0 !! 1 = None
      ∧ handles world0 !! 2 = None
      ∧ handles w' = <[2 := HContext]> (<[1 := HFunc 7%nat]> (handles world0))
      ∧ registry_ok w'.
Proof.
  assert (Hok : registry_ok world0).
  { split; [cbn; lia|]. intros h o Hl. cbn in Hl. by rewrite lookup_empty in Hl. }
  split; [exact Hok|].
  assert (Hr : ∃ v w', register (Sync 7%nat) world0 = Returned v w').
  { eexists _, _.
    match goal with |- ?l = _ => let l' := eval hnf in l in change l with l' end.
    reflexivity. }
  destruct Hr as (v & w' & Hr).
  exists v, w'. split; [exact Hr|].
  destruct (proj1 (proj2 (proj2 (registrations_share_one_shim [] world0)))
              (Sync 7%nat) v w' Hok Hr)
    as (H1 & H2 & Hh & Hok' & _).
  split; [exact H1|]. split; [exact H2|]. split; [exact Hh | exact Hok'].
Defined.

(** A caller who names the script differently from its path. *)
Lemma EvalFile_filename_is_the_path_witness :
  fs world0 "main.js" = inl (String.list_byte_of_string "1+1")
  ∧ ∃ flags evs,
      trace (final (EvalFile "main.js" [EvalFileName "x.js"] world0)) =
        trace world0 ++
        EvEval (String.string_of_list_byte (String.list_byte_of_string "1+1"))
          "main.js" flags :: evs
      ∧ Forall (λ ev, is_eval ev = false) evs.
Proof.
  split; [reflexivity|].
  apply (EvalFile_filename_is_the_path "main.js" [EvalFileName "x.js"]
           (String.list_byte_of_string "1+1") world0).
  reflexivity.
Defined.

(** The same input, evaluated: the engine is told ["main.js"]. *)
Example EvalFile_ignores_caller_filename :
  trace (final (EvalFile "main.js" [EvalFileName "x.js"] world0)) =
    [EvEval "1+1" "main.js" 0].
Proof. vm_compute. reflexivity. Qed.

(** [CompileFile] on the same input keeps the caller's name. *)
Example CompileFile_keeps_caller_filename :
  trace (final (CompileFile "main.js" [EvalFileName "x.js"] world0)) =
    [EvEval "1+1" "x.js" 32; EvWriteObject (VBytecode "1+1"); EvJsFree;
     EvFreeValue (VBytecode "1+1")].
Proof. vm_compute. reflexivity. Qed.

(** A module source evaluated with only the strict flag requested. *)
Lemma Eval_forces_module_when_detected_witness :
  JS_DetectModule "export const a = 1" ≠ 0
  ∧ ∃ flags evs,
      trace (final (Eval "export const a = 1" [EvalFlagStrict true] world0)) =
        trace world0 ++ EvEval "export const a = 1" "<input>" flags :: evs
      ∧ Forall (λ ev, is_eval ev = false) evs
      ∧ flags = 9
      ∧ Z.land flags 1 = 1.
Proof.
  assert (H : JS_DetectModule "export const a = 1" ≠ 0) by (vm_compute; discriminate).
  split; [exact H|].
  destruct (Eval_forces_module_when_detected "export const a = 1" [EvalFlagStrict true] world0 H)
    as (flags & evs & Ht & Hev & Hfl & Hm & _).
  exists flags, evs. split; [exact Ht|]. split; [exact Hev|].
  split; [rewrite Hfl; reflexivity | exact Hm].
Defined.

(** A Context whose global object is already cached. *)
Lemma Close_frees_each_cached_value_once_witness :
  globals (context (final (Globals world0))) = Some {| ref := VObject 0 |}
  ∧ Globals (final (Globals world0)) =
      Returned {| ref := VObject 0 |} (final (Globals world0)).
Proof.
  split; [reflexivity|].
  apply (proj1 (proj2 (Close_frees_each_cached_value_once (final (Globals world0))))).
  reflexivity.
Defined.

(** A three-byte script, compiled. *)
Lemma Compile_serializes_or_surfaces_exception_witness :
  ∃ buf w',
    Compile "1+1" [] world0 = Returned (Some buf, None) w'
    ∧ Z.of_nat (length buf) = 3.
Proof.
  assert (HE : ∃ w1, Eval "1+1" ([] ++ [EvalFlagCompileOnly true]) world0 =
                     Returned (@Build_Value abi (VBytecode "1+1"), None) w1
                     ∧ engine w1 = engine world0).
  { eexists.
    match goal with |- ?l = _ ∧ _ => let l' := eval hnf in l in change l with l' end.
    split; reflexivity. }
  destruct HE as (w1 & HE & Hes).
  destruct (proj1 (proj2 (proj2 (proj2
             (Compile_serializes_or_surfaces_exception "1+1" [] world0)))) _ w1 HE)
    as [_ Hpos].
  cbn [ref] in Hpos. rewrite Hes in Hpos.
  destruct (Hpos ltac:(vm_compute; reflexivity)) as (buf & w' & HC & _ & Hlen & _ & _).
  exists buf, w'. split; [exact HC|].
  etrans; [exact Hlen | vm_compute; reflexivity].
Defined.

(** Two mutators of different fields, in both orders. *)
Lemma EvalOptions_defaults_and_mutators_witness :
  field (OStrict true) ≠ field (OFileName "a.js")
  ∧ apply_opts [EvalFlagStrict true; EvalFileName "a.js"] Eval_defaults =
      apply_opts [EvalFileName "a.js"; EvalFlagStrict true] Eval_defaults.
Proof.
  assert (H : field (OStrict true) ≠ field (OFileName "a.js"))
    by (vm_compute; discriminate).
  split; [exact H|].
  exact (proj2 (proj2 (proj2 (EvalOptions_defaults_and_mutators
                                (E := abi) (Callback := nat) (AsyncCallback := nat))))
           Eval_defaults (OStrict true) (OFileName "a.js") H).
Defined.

(** A path that is not on disk. *)
Lemma file_read_error_passed_through_witness :
  fs world0 "nope.js" = inr (PathError "nope.js")
  ∧ EvalFile "nope.js" [] world0 = Returned (Null, Some (PathError "nope.js")) world0
  ∧ CompileFile "nope.js" [] world0 = Returned (None, Some (PathError "nope.js")) world0
  ∧ LoadModuleFile "nope.js" "m" world0 = Returned (Null, Some (PathError "nope.js")) world0.
Proof.
  split; [reflexivity|].
  apply (file_read_error_passed_through "nope.js" "m" [] (PathError "nope.js") world0).
  reflexivity.
Defined.

(** * Further properties *)

Section MoreProperties.

Context {E : Engine} {Callback AsyncCallback : Type}.

#[local] Abbreviation World := (World (Callback := Callback) (AsyncCallback := AsyncCallback)).

(** Unfolds the monad and the ABI wrappers down to explicit worlds. *)
Ltac exec :=
  unfold Free, Error_of, os_ReadFile, get_context, put_context, panic,
    C_JS_Eval, C_js_std_await, C_JS_GetException, C_JS_FreeValue,
    C_JS_FreeContext, C_JS_GetGlobalObject, C_JS_NewCFunction, C_JS_Call,
    C_JS_NewArrayBufferCopy, C_JS_ReadObject, C_JS_WriteObject,
    C_JS_ResolveModule, C_js_module_set_import_meta, C_js_free,
    call, call_, step, defer, mbind, M_bind, mret, M_ret in *;
  cbn [engine context handleIdx handles fs trace set_engine set_context
       set_handles log final ref fst snd globals proxy asyncProxy] in *.

(** ** Calls and awaits *)



(** X2. [Await] returns the value [js_std_await] yields, with a nil error
    when that value has no exception tag and with the Exception Bridge's
    error for the state the await left when it has.  The await is its first
    engine call; nothing follows it when the value has no exception tag, and
    what follows it otherwise evaluates, calls and awaits nothing. *)
Theorem Await_result (v : Value) (w : World) :
  let awaited := js_std_await (ref v) (engine w) in
  ∃ err w' evs,
    Await v w = Returned ({| ref := awaited.1 |}, err) w'
    ∧ err = (if IsException awaited.1 then bridge_error awaited.2 else None)
    ∧ trace w' = trace w ++ EvAwait (ref v) :: evs
    ∧ Forall (λ ev, is_evaluation ev = false) evs
    ∧ (IsException awaited.1 = false → evs = []).
Proof.
  intros awaited. subst awaited. unfold Await. exec.
  destruct (IsException _) eqn:Hex.
  - match goal with |- context [Exception ?W] =>
      destruct (Exception_run W) as (w2 & HE & Hh & Ht); rewrite HE end.
    eexists _, w2, [EvGetException; EvFreeValue _].
    split; [reflexivity|]. split; [reflexivity|].
    split; [|split; [repeat constructor | discriminate]].
    rewrite Ht. cbn [trace set_engine log engine].
    by rewrite <- app_assoc.
  - eexists _, _, []. split; [reflexivity|]. split; [reflexivity|].
    split; [reflexivity|]. split; [constructor | reflexivity].
Qed.

Lemma Eval_cFlag_EvalAwait (code : string) (b : bool) (o : EvalOptions) :
  Eval_cFlag code (EvalAwait b o) = Eval_cFlag code o.
Proof. reflexivity. Qed.

(** X3. When the engine's immediate result has no exception tag, [Eval] with
    await requested is [Eval] without it followed by [Await] on the result:
    same Value, same error, same final world. *)
Theorem Eval_await_is_Eval_then_Await (code : string) (opts : list EvalOption) (w : World) :
  let options := apply_opts opts Eval_defaults in
  IsException (JS_Eval code (filename options) (Eval_cFlag code options) (engine w)).1 = false →
  Eval code (opts ++ [EvalAwait true]) w =
    ('(v, _) ← Eval code (opts ++ [EvalAwait false]); Await v) w.
Proof.
  intros options Hex. unfold Eval, Await. rewrite !apply_opts_snoc. fold options.
  rewrite !Eval_cFlag_EvalAwait. cbn [await filename EvalAwait]. exec.
  rewrite Hex. reflexivity.
Qed.

(** X4. With await requested [Eval] hands the engine's immediate result to
    [js_std_await] whatever its tag: an exception-tagged result of [JS_Eval]
    is awaited too before anything is reported. *)
Theorem Eval_await_awaits_any_result (code : string) (opts : list EvalOption) (w : World) :
  let options := apply_opts opts Eval_defaults in
  let immediate := JS_Eval code (filename options) (Eval_cFlag code options) (engine w) in
  await options = true →
  ∃ evs,
    trace (final (Eval code opts w)) =
      trace w ++ [EvEval code (filename options) (Eval_cFlag code options);
                  EvAwait immediate.1] ++ evs
    ∧ Forall (λ ev, is_evaluation ev = false) evs.
Proof.
  intros options immediate Haw. subst immediate. unfold Eval. fold options.
  rewrite Haw. exec.
  destruct (IsException _).
  - match goal with |- context [Exception ?W] =>
      destruct (Exception_run W) as (w2 & HE & _ & Ht); rewrite HE end.
    cbn [final]. rewrite Ht. cbn [trace set_engine log engine].
    rewrite <- !app_assoc. eexists. split; [reflexivity|]. repeat constructor.
  - cbn [final trace set_engine log]. rewrite <- !app_assoc.
    exists []. split; [reflexivity|]. constructor.
Qed.

(** ** Options *)

Lemma read_mutator_same (n : OptionName) (o : EvalOptions) :
  read (field n) (mutator n o) = Some (setting n).
Proof. by destruct n. Qed.

Lemma read_mutator_other (n : OptionName) (k : nat) (o : EvalOptions) :
  field n ≠ k → read k (mutator n o) = read k o.
Proof.
  intros Hk. destruct n; cbn in Hk;
    do 7 (destruct k as [|k]; [first [reflexivity | contradiction]|]); reflexivity.
Qed.

Lemma writers_snoc (k : nat) (ns : list OptionName) (n : OptionName) :
  writers k (ns ++ [n]) =
    if bool_decide (field n = k) then writers k ns ++ [n] else writers k ns.
Proof.
  unfold writers. rewrite List.filter_app. cbn [List.filter].
  destruct (bool_decide (field n = k)); [reflexivity | apply app_nil_r].
Qed.

Lemma apply_named_snoc (ns : list OptionName) (n : OptionName) (o : EvalOptions) :
  apply_opts (mutator <$> (ns ++ [n])) o = mutator n (apply_opts (mutator <$> ns) o).
Proof. rewrite fmap_app. apply apply_opts_snoc. Qed.

(** X5. For a list of the seven named options, each field ends up with the
    argument of the last option in the list that writes it, and keeps its
    initial value when no option writes it. *)
Theorem options_last_writer_wins (ns : list OptionName) (o : EvalOptions) (k : nat) :
  read k (apply_opts (mutator <$> ns) o) =
    match last (writers k ns) with
    | Some n => Some (setting n)
    | None => read k o
    end.
Proof.
  induction ns as [|n ns IH] using rev_ind; [reflexivity|].
  rewrite apply_named_snoc, writers_snoc.
  destruct (bool_decide (field n = k)) eqn:Hk.
  - apply bool_decide_eq_true in Hk. subst k.
    rewrite last_snoc. apply read_mutator_same.
  - apply bool_decide_eq_false in Hk.
    rewrite read_mutator_other by exact Hk. exact IH.
Qed.

Lemma filename_apply_opts (ns : list OptionName) (o : EvalOptions) :
  filename (apply_opts (mutator <$> ns) o) = default (filename o) (named_filename ns).
Proof.
  induction ns as [|n ns IH] using rev_ind; [reflexivity|].
  rewrite apply_named_snoc. unfold named_filename in *. rewrite writers_snoc.
  destruct n; cbn [field bool_decide mutator]; try exact IH.
  rewrite bool_decide_eq_true_2 by reflexivity. by rewrite last_snoc.
Qed.

(** ** Filenames of compiled files *)

Lemma Compile_first_call (code : string) (opts : list EvalOption) (w : World) :
  let options := apply_opts (opts ++ [EvalFlagCompileOnly true]) Eval_defaults in
  ∃ evs, trace (final (Compile code opts w)) =
           trace w ++ EvEval code (filename options) (Eval_cFlag code options) :: evs.
Proof.
  intros options.
  destruct (Eval_trace code (opts ++ [EvalFlagCompileOnly true]) w) as (evs & Ht & _).
  fold options in Ht.
  destruct (Eval code (opts ++ [EvalFlagCompileOnly true]) w)
    as [[val [e|]] w1|p w1] eqn:HE; cbn [final] in Ht.
  - exists evs. unfold Compile. exec. by rewrite HE.
  - destruct (Compile_after_eval code opts w val w1 HE) as [Hle Hgt].
    destruct (Z_le_gt_dec (C_int (JS_WriteObject (ref val) (engine w1)).1.2) 0) as [H|H].
    + destruct (Hle H) as (err & w3 & w' & HX & _ & -> & Ht').
      match type of HX with Exception ?W = _ =>
        destruct (Exception_run W) as (w3' & HX' & _ & Ht3) end.
      rewrite HX in HX'. injection HX' as _ <-.
      cbn [final]. rewrite Ht', Ht3. cbn [trace set_engine log].
      rewrite Ht, <- !app_assoc. eexists. reflexivity.
    + destruct (Hgt ltac:(lia)) as (buf & w' & -> & _ & _ & _ & Ht').
      cbn [final]. rewrite Ht'. cbn [trace set_engine log].
      rewrite Ht, <- !app_assoc. eexists. reflexivity.
  - destruct (Eval_result code (opts ++ [EvalFlagCompileOnly true]) w) as (? & ? & HE' & _).
    congruence.
Qed.

(** X6. [CompileFile] with named options compiles under the last filename
    the caller set, and under the file path when the caller set none or set
    the empty string. *)
Theorem CompileFile_filename_of_named_options
    (filePath : string) (ns : list OptionName) (b : list Byte.byte) (w : World) :
  fs w filePath = inl b →
  ∃ flags evs,
    trace (final (CompileFile filePath (mutator <$> ns) w)) =
      trace w ++
      EvEval (String.string_of_list_byte b)
        (match named_filename ns with
         | Some s => if decide (s = "") then filePath else s
         | None => filePath
         end) flags :: evs.
Proof.
  intros Hfs. rewrite (CompileFile_filename_default filePath _ b w Hfs).
  rewrite filename_apply_opts. cbn [filename EvalOptions_zero].
  destruct (named_filename ns) as [s|] eqn:Hn; cbn [default from_option id].
  - destruct (decide (s = "")) as [Hs|Hs].
    + destruct (Compile_first_call (String.string_of_list_byte b)
                  ((mutator <$> ns) ++ [EvalFileName filePath]) w) as (evs & Ht).
      rewrite !apply_opts_snoc in Ht. cbn [filename EvalFlagCompileOnly EvalFileName] in Ht.
      eauto.
    + destruct (Compile_first_call (String.string_of_list_byte b) (mutator <$> ns) w)
        as (evs & Ht).
      rewrite apply_opts_snoc in Ht. cbn [filename EvalFlagCompileOnly] in Ht.
      rewrite filename_apply_opts, Hn in Ht. cbn [default from_option id] in Ht.
      destruct (decide (s = "")); [contradiction|]. eauto.
  - destruct (decide ("" = "")) as [_|Hne]; [|contradiction].
    destruct (Compile_first_call (String.string_of_list_byte b)
                ((mutator <$> ns) ++ [EvalFileName filePath]) w) as (evs & Ht).
    rewrite !apply_opts_snoc in Ht. cbn [filename EvalFlagCompileOnly EvalFileName] in Ht.
    eauto.
Qed.

(** X7. [CompileModule] compiles under the module name, whatever filename
    the caller's options carry, and under the file path when the module name
    is empty; when the file cannot be read it returns a nil buffer with the
    read error and leaves the world as it was. *)
Theorem CompileModule_filename
    (filePath moduleName : string) (opts : list EvalOption) (w : World) :
  (∀ b, fs w filePath = inl b →
     ∃ flags evs,
       trace (final (CompileModule filePath moduleName opts w)) =
         trace w ++
         EvEval (String.string_of_list_byte b)
           (if decide (moduleName = "") then filePath else moduleName) flags :: evs)
  ∧ (∀ err, fs w filePath = inr err →
       CompileModule filePath moduleName opts w = Returned (None, Some err) w).
Proof.
  split.
  - intros b Hfs. unfold CompileModule.
    rewrite (CompileFile_filename_default filePath _ b w Hfs).
    rewrite apply_opts_snoc. cbn [filename EvalFileName].
    destruct (decide (moduleName = "")) as [Hm|Hm];
      match goal with |- context [Compile ?c ?o w] =>
        destruct (Compile_first_call c o w) as (evs & Ht) end;
      rewrite !apply_opts_snoc in Ht;
      cbn [filename EvalFlagCompileOnly EvalFileName] in Ht; eauto.
  - intros err Hfs. unfold CompileModule, CompileFile. exec. by rewrite Hfs.
Qed.

(** ** Modules *)

(** X8. When the compile step of [LoadModule] yields a module that fails to
    resolve, the module value is freed once and the call returns the null
    Value with the fixed error "resolve module failed"; import-meta is not
    set and nothing is awaited. *)
Theorem LoadModule_resolve_failure (code moduleName : string) (w : World) :
  let cFlag := Z.lor JS_EVAL_TYPE_MODULE JS_EVAL_FLAG_COMPILE_ONLY in
  let compiled := JS_Eval code moduleName cFlag (engine w) in
  let resolved := JS_ResolveModule compiled.1 compiled.2 in
  ValueGetTag compiled.1 = JS_TAG_MODULE →
  resolved.1 ≠ 0 →
  ∃ w',
    LoadModule code moduleName w =
      Returned (Null, Some (Errorf "resolve module failed")) w'
    ∧ engine w' = JS_FreeValue compiled.1 resolved.2
    ∧ trace w' = trace w ++ [EvEval code moduleName cFlag;
                             EvResolveModule compiled.1;
                             EvFreeValue compiled.1].
Proof.
  intros cFlag compiled resolved Htag Hres. subst resolved compiled cFlag.
  unfold LoadModule. exec.
  destruct (decide (ValueGetTag _ ≠ JS_TAG_MODULE)); [contradiction|]. exec.
  destruct (decide (_ ≠ 0)); [|contradiction].
  eexists. split; [reflexivity|]. split; [reflexivity|].
  cbn [trace set_engine log]. by rewrite <- !app_assoc.
Qed.

(** X9. When the module compiles and resolves, [LoadModule] sets import-meta
    with arguments 0 and 1, awaits the module and returns what the await
    yields with a nil error, whatever the tag of that value: the Exception
    Bridge is not consulted, also when the module's evaluation threw. *)
Theorem LoadModule_success_has_nil_error (code moduleName : string) (w : World) :
  let cFlag := Z.lor JS_EVAL_TYPE_MODULE JS_EVAL_FLAG_COMPILE_ONLY in
  let compiled := JS_Eval code moduleName cFlag (engine w) in
  let resolved := JS_ResolveModule compiled.1 compiled.2 in
  let awaited := js_std_await compiled.1
                   (js_module_set_import_meta compiled.1 0 1 resolved.2) in
  ValueGetTag compiled.1 = JS_TAG_MODULE →
  resolved.1 = 0 →
  ∃ w',
    LoadModule code moduleName w = Returned ({| ref := awaited.1 |}, None) w'
    ∧ engine w' = awaited.2
    ∧ trace w' = trace w ++ [EvEval code moduleName cFlag;
                             EvResolveModule compiled.1;
                             EvSetImportMeta compiled.1 0 1;
                             EvAwait compiled.1].
Proof.
  intros cFlag compiled resolved awaited Htag Hres. subst awaited resolved compiled cFlag.
  unfold LoadModule. exec.
  destruct (decide (ValueGetTag _ ≠ JS_TAG_MODULE)); [contradiction|]. exec.
  destruct (decide (_ ≠ 0)); [contradiction|].
  eexists. split; [reflexivity|]. split; [reflexivity|].
  cbn [trace set_engine log]. by rewrite <- !app_assoc.
Qed.

(** X10. [LoadModuleBytecode] always returns, and on each of its paths the
    C copy of the buffer is released exactly once, as the last call. *)
Theorem LoadModuleBytecode_frees_buffer_once (buf : list Byte.byte) (w : World) :
  ∃ r w' evs,
    LoadModuleBytecode buf w = Returned r w'
    ∧ trace w' = trace w ++ EvReadObject buf :: evs ++ [EvJsFree]
    ∧ Forall (λ ev, is_js_free ev = false) evs.
Proof.
  unfold LoadModuleBytecode. exec.
  destruct (IsException _).
  - match goal with |- context [Exception ?W] =>
      destruct (Exception_run W) as (w2 & HE & _ & Ht); rewrite HE end.
    eexists _, _, [EvGetException; EvFreeValue _]. split; [reflexivity|].
    cbn [trace set_engine log] in *. rewrite Ht, <- !app_assoc.
    split; [reflexivity|]. repeat constructor.
  - destruct (decide (ValueGetTag _ ≠ JS_TAG_MODULE)).
    + eexists _, _, []. split; [reflexivity|].
      cbn [trace set_engine log]. rewrite <- !app_assoc. split; [reflexivity|]. constructor.
    + destruct (decide (_ ≠ 0)).
      * eexists _, _, [EvResolveModule _; EvFreeValue _]. split; [reflexivity|].
        cbn [trace set_engine log]. rewrite <- !app_assoc.
        split; [reflexivity|]. repeat constructor.
      * eexists _, _, [EvResolveModule _; EvSetImportMeta _ _ _; EvAwait _].
        split; [reflexivity|].
        cbn [trace set_engine log]. rewrite <- !app_assoc.
        split; [reflexivity|]. repeat constructor.
Qed.

(** X11. A buffer that deserializes to a value that is neither an exception
    nor a module is rejected with the fixed error "not a module": the calls
    made are the read and the release of the buffer copy, so the
    deserialized value itself is not freed. *)
Theorem LoadModuleBytecode_not_a_module (buf : list Byte.byte) (w : World) :
  let read := JS_ReadObject buf (engine w) in
  IsException read.1 = false →
  ValueGetTag read.1 ≠ JS_TAG_MODULE →
  ∃ w',
    LoadModuleBytecode buf w = Returned (Null, Some (Errorf "not a module")) w'
    ∧ engine w' = js_free read.2
    ∧ trace w' = trace w ++ [EvReadObject buf; EvJsFree].
Proof.
  intros read Hex Htag. subst read. unfold LoadModuleBytecode. exec. rewrite Hex.
  destruct (decide (ValueGetTag _ ≠ JS_TAG_MODULE)); [|contradiction].
  eexists. split; [reflexivity|]. split; [reflexivity|].
  cbn [trace set_engine log]. by rewrite <- !app_assoc.
Qed.

(** ** Registrations, continued *)

Lemma register_handleIdx (r : Registration) (w : World) :
  0 ≤ handleIdx w → handleIdx w + 2 < 2 ^ 64 →
  handleIdx (final (register r w)) = handleIdx w + 2.
Proof.
  intros H0 H2.
  destruct r as [fn|fn]; unfold register, Function, AsyncFunction, deref; exec;
    [destruct (proxy (context w)) as [p|] eqn:Hp
    |destruct (asyncProxy (context w)) as [p|] eqn:Hp]; exec;
    (rewrite cgo_NewHandle_ok by (cbn [handleIdx set_context set_engine log]; lia));
    exec;
    (rewrite cgo_NewHandle_ok by (cbn [handleIdx set_handles set_context set_engine log]; lia));
    exec; rewrite ?Hp; cbn beta iota;
    match goal with |- context [Eval ?c [] ?W] =>
      destruct (Eval_plain c W) as (val & err & w1 & evs0 & HE & (_ & Hi & _ & _) & _ & _);
      rewrite HE end;
    destruct err as [e|]; exec; rewrite Hi;
    cbn [handles handleIdx set_handles set_context set_engine log]; lia.
Qed.

Lemma Eval_wrapper (code : string) (w : World) :
  let flags := Eval_cFlag code Eval_defaults in
  let evaluated := JS_Eval code "<input>" flags (engine w) in
  ∃ w' evs,
    Eval code [] w =
      Returned ({| ref := evaluated.1 |},
                if IsException evaluated.1 then bridge_error evaluated.2 else None) w'
    ∧ trace w' = trace w ++ EvEval code "<input>" flags :: evs
    ∧ Forall (λ ev, is_call ev = false) evs.
Proof.
  intros flags evaluated. subst flags evaluated. unfold Eval.
  cbn [apply_opts foldl Eval_defaults await filename]. exec.
  destruct (IsException _) eqn:Hex.
  - match goal with |- context [Exception ?W] =>
      destruct (Exception_run W) as (w2 & HE & _ & Ht); rewrite HE end.
    cbn [engine trace set_engine log] in Ht.
    eexists w2, [EvGetException; EvFreeValue _]. split; [reflexivity|].
    split; [|repeat constructor]. rewrite Ht, <- app_assoc. reflexivity.
  - eexists _, []. split; [reflexivity|]. split; [reflexivity | constructor].
Qed.

(** X13. With room for its two handles, a registration evaluates its wrapper
    source in the state the shim's installation left.  When that evaluation
    comes with an error, the registration panics with that very error and no
    script function has been called.  Otherwise it returns, and its one call
    of a script function applies the value the evaluation gave, with [null]
    as receiver, to the shim and the two handles just taken.  Either way the
    last engine call frees the value the evaluation gave. *)
Theorem register_calls_wrapper_iff_it_returns (r : Registration) (w : World) :
  0 ≤ handleIdx w → handleIdx w + 2 < 2 ^ 64 →
  let source := wrapper_source r in
  let flags := Eval_cFlag source Eval_defaults in
  let shimmed := installed r (context w) (engine w) in
  let evaluated := JS_Eval source "<input>" flags shimmed.2 in
  let wrapper := evaluated.1 in
  let args := [shimmed.1; ref (Int64 (int64 (handleIdx w + 1)));
               ref (Int64 (int64 (handleIdx w + 2)))] in
  ∃ before after,
    trace (final (register r w)) =
      trace w ++ before ++ EvEval source "<input>" flags :: after ++ [EvFreeValue wrapper]
    ∧ Forall (λ ev, is_call ev = false ∧ is_eval ev = false) before
    ∧ match (if IsException wrapper then bridge_error evaluated.2 else None) with
      | Some e =>
          (∃ w', register r w = Panicked (PanicError e) w')
          ∧ Forall (λ ev, is_call ev = false) after
      | None =>
          ∃ bridge v w',
            register r w = Returned v w'
            ∧ after = bridge ++ [EvCall wrapper (ref Null) args]
            ∧ Forall (λ ev, is_call ev = false) bridge
      end.
Proof.
  intros H0 H2 source flags shimmed evaluated wrapper args.
  subst source flags shimmed evaluated wrapper args.
  destruct r as [fn|fn]; unfold register, Function, AsyncFunction, deref, installed; exec;
    cbn [wrapper_source entry shim];
    [destruct (proxy (context w)) as [p|] eqn:Hp
    |destruct (asyncProxy (context w)) as [p|] eqn:Hp]; exec;
    (rewrite cgo_NewHandle_ok by (cbn [handleIdx set_context set_engine log]; lia));
    exec;
    (rewrite cgo_NewHandle_ok by (cbn [handleIdx set_handles set_context set_engine log]; lia));
    exec; rewrite ?Hp; cbn beta iota;
    match goal with |- context [Eval ?c [] ?W] =>
      destruct (Eval_wrapper c W) as (w1 & evs0 & HE & Ht & Hevs);
      cbn [engine trace set_handles set_context set_engine log] in HE, Ht;
      rewrite HE end;
    replace (handleIdx w + 1 + 1) with (handleIdx w + 2) by lia;
    destruct (if IsException _ then _ else _) as [e|]; exec; rewrite Ht.
  all: match goal with
       | |- context [EvNewCFunction ?f] => exists [EvNewCFunction f]
       | _ => exists []
       end;
       match goal with
       | |- context [EvCall ?fn ?this ?args] => exists (evs0 ++ [EvCall fn this args])
       | _ => exists evs0
       end;
       (split; [cbn [app]; rewrite <- ?app_assoc; reflexivity|]);
       (split; [repeat constructor|]);
       first [ split; [by eexists | exact Hevs]
             | eexists evs0, _, _; split; [reflexivity|];
               split; [reflexivity | exact Hevs] ].
Qed.

Lemma mapM_register_cons (r : Registration) (rs : list Registration) (w : World) :
  mapM register (r :: rs) w =
    match register r w with
    | Returned v w1 =>
        match mapM register rs w1 with
        | Returned vs w2 => Returned (v :: vs) w2
        | Panicked p w2 => Panicked p w2
        end
    | Panicked p w1 => Panicked p w1
    end.
Proof. reflexivity. Qed.

(** X14. Over a sequence of registrations, with room in the counter, the
    handle table only grows: every entry present before is still there
    afterwards, also when a registration panics; and when all of them
    return, the counter has advanced by two per registration and the table
    holds exactly two more entries per registration. *)
Theorem registrations_grow_handle_table (rs : list Registration) (w : World) :
  registry_ok w →
  handleIdx w + 2 * Z.of_nat (length rs) < 2 ^ 64 →
  (∀ h o, handles w !! h = Some o →
          handles (final (mapM register rs w)) !! h = Some o)
  ∧ (∀ vs w', mapM register rs w = Returned vs w' →
       length vs = length rs
       ∧ handleIdx w' = handleIdx w + 2 * Z.of_nat (length rs)
       ∧ size (handles w') = (size (handles w) + 2 * length rs)%nat
       ∧ registry_ok w').
Proof.
  revert w. induction rs as [|r rs IH]; intros w Hok Hroom.
  - split; [done|]. intros vs w' [= <- <-]. cbn [length].
    split; [reflexivity|]. split; [lia|]. split; [lia | exact Hok].
  - cbn [length] in Hroom.
    assert (Hroom2 : handleIdx w + 2 < 2 ^ 64) by lia.
    destruct Hok as [[H0 Hlt] Hkeys].
    pose proof (register_takes_two_handles r w H0 Hroom2) as Hh.
    pose proof (register_handleIdx r w H0 Hroom2) as Hi.
    assert (Hkeep : ∀ h o, handles w !! h = Some o →
                           handles (final (register r w)) !! h = Some o).
    { intros h o Hl. rewrite Hh. pose proof (Hkeys h o Hl).
      rewrite !lookup_insert_ne by lia. exact Hl. }
    rewrite mapM_register_cons.
    destruct (register r w) as [v w1|p w1] eqn:Hr; cbn [final] in *.
    + destruct (register_handles r w v w1 (conj (conj H0 Hlt) Hkeys) Hr)
        as (Hf1 & Hf2 & _ & Hok1 & _).
      destruct (IH w1 Hok1 ltac:(lia)) as [IHkeep IHret].
      split.
      * intros h o Hl. apply Hkeep in Hl.
        destruct (mapM register rs w1); cbn [final] in *; by apply IHkeep.
      * intros vs w'. destruct (mapM register rs w1) as [vs1 w2|p w2]; [|discriminate].
        intros [= <- <-]. destruct (IHret vs1 w2 eq_refl) as (Hl & Hi2 & Hs & Hok2).
        cbn [length]. split; [lia|]. split; [lia|]. split; [|exact Hok2].
        rewrite Hs, Hh.
        rewrite map_size_insert_None by (rewrite lookup_insert_ne by lia; exact Hf2).
        rewrite map_size_insert_None by exact Hf1. lia.
    + split; [exact Hkeep | discriminate].
Qed.

Lemma int64_small (z : Z) : 0 ≤ z < 2 ^ 63 → int64 z = z.
Proof. intros Hz. unfold int64. rewrite Z.mod_small; lia. Qed.

(** X19. The two integers a returning registration passes to the wrapper are
    the handle-table indices themselves, as long as they are below 2^63:
    looking the first up in the table gives the registered closure, looking
    the second up gives the Context. *)
Theorem registration_handles_resolve_to_closure_and_context
    (r : Registration) (w : World) (v : Value) (w' : World) :
  registry_ok w →
  handleIdx w + 2 < 2 ^ 63 →
  register r w = Returned v w' →
  ∃ p wrapper evs fnHandler ctxHandler,
    shim (entry r) (context w') = Some p
    ∧ trace w' = trace w ++ evs ++
        [EvCall wrapper JS_NewNull [ref p; JS_NewInt64 fnHandler; JS_NewInt64 ctxHandler];
         EvFreeValue wrapper]
    ∧ handles w' !! fnHandler = Some (closure r)
    ∧ handles w' !! ctxHandler = Some HContext
    ∧ fnHandler ≠ ctxHandler.
Proof.
  intros Hok Hroom Hr.
  destruct (register_handles r w v w' Hok Hr) as (_ & _ & Hh & _ & p & wrapper & evs & Hs & Ht).
  destruct Hok as [[H0 _] _].
  rewrite !int64_small in Ht by lia.
  exists p, wrapper, evs, (handleIdx w + 1), (handleIdx w + 2).
  split; [exact Hs|]. split; [exact Ht|]. rewrite Hh.
  split; [|split; [|lia]].
  - rewrite lookup_insert_ne by lia. apply lookup_insert_eq.
  - apply lookup_insert_eq.
Qed.

(** ** Teardown, continued *)

Lemma Close_run (w : World) :
  ∃ w', Close w = Returned tt w'
        ∧ trace w' = trace w ++ teardown (context w)
        ∧ same_host w w'.
Proof.
  unfold Close, teardown. exec.
  destruct (proxy (context w)) as [p|], (asyncProxy (context w)) as [a|],
    (globals (context w)) as [g|]; exec;
    (eexists; split; [reflexivity|]; split; [|repeat split]);
    cbn [trace set_engine log frees app]; rewrite <- ?app_assoc; reflexivity.
Qed.

(** X15. [Close] leaves the cached pointers in place: closing a Context a
    second time repeats every free of the first, the free of the context
    included. *)
Theorem Close_twice_repeats_every_free (w : World) :
  ∃ w', (Close;; Close) w = Returned tt w'
        ∧ trace w' = trace w ++ teardown (context w) ++ teardown (context w).
Proof.
  destruct (Close_run w) as (w1 & HC1 & Ht1 & (Hc & _)).
  destruct (Close_run w1) as (w2 & HC2 & Ht2 & _).
  exists w2. unfold mbind, M_bind. rewrite HC1, HC2. split; [reflexivity|].
  by rewrite Ht2, Ht1, Hc, <- app_assoc.
Qed.

(** X16. [Globals] asks the engine for the global object at most once: after
    any call, a further call returns the same Value and changes nothing. *)
Theorem Globals_is_idempotent (w : World) :
  ∃ g w1,
    Globals w = Returned g w1
    ∧ Globals w1 = Returned g w1
    ∧ (trace w1 = trace w ∨ trace w1 = trace w ++ [EvGetGlobalObject]).
Proof.
  unfold Globals. exec. destruct (globals (context w)) as [g|] eqn:Hg; exec.
  - exists g, w. rewrite Hg. split; [reflexivity|]. split; [reflexivity|]. by left.
  - eexists _, _. split; [reflexivity|]. exec. split; [reflexivity|]. by right.
Qed.

End MoreProperties.

Section MorePropertiesX.

Context {E : Engine} {X : EngineX E} {Callback AsyncCallback : Type}.

#[local] Abbreviation World := (World (Callback := Callback) (AsyncCallback := AsyncCallback)).


(** ** Bytecode and atoms *)


(** X18. [AtomIdx] passes its 64-bit index to the engine reduced modulo
    2^32: two indices that differ by a multiple of 2^32 make the same call,
    and an index between 0 and 2^32 - 1 is passed as it is. *)
Theorem AtomIdx_index_is_taken_modulo_2_32 (idx k : Z) (w : World) :
  AtomIdx (idx + k * 2 ^ 32) w = AtomIdx idx w
  ∧ (0 ≤ idx < 2 ^ 32 →
     AtomIdx idx w =
       Returned {| atom_ref := (JS_NewAtomUInt32 idx (engine w)).1 |}
         (set_engine (JS_NewAtomUInt32 idx (engine w)).2 w)).
Proof.
  split.
  - unfold AtomIdx, uint32. by rewrite Z_mod_plus_full.
  - intros Hidx. unfold AtomIdx, uint32. by rewrite Z.mod_small by lia.
Qed.

End MorePropertiesX.

(** * The further properties on the simulated engine *)

Import SimX.

(** A script whose immediate result is a plain value. *)
Lemma Eval_await_is_Eval_then_Await_witness :
  IsException (JS_Eval "1+1" "<input>" 0 (engine world0)).1 = false
  ∧ Eval "1+1" ([] ++ [EvalAwait true]) world0 =
      ('(v, _) ← Eval "1+1" ([] ++ [EvalAwait false]); Await v) world0.
Proof.
  split; [reflexivity|].
  apply (Eval_await_is_Eval_then_Await "1+1" [] world0). reflexivity.
Defined.

(** A script that throws, evaluated with await requested. *)
Lemma Eval_await_awaits_any_result_witness :
  await (apply_opts [EvalAwait true] Eval_defaults) = true
  ∧ ∃ evs,
      trace (final (Eval "throw 1" [EvalAwait true] world0)) =
        trace world0 ++ [EvEval "throw 1" "<input>" 0; EvAwait VException] ++ evs
      ∧ Forall (λ ev, is_evaluation ev = false) evs.
Proof.
  split; [reflexivity|].
  apply (Eval_await_awaits_any_result "throw 1" [EvalAwait true] world0). reflexivity.
Defined.

(** A caller who names the compiled file and asks for strict mode. *)
Lemma CompileFile_filename_of_named_options_witness :
  fs world0 "main.js" = inl (String.list_byte_of_string "1+1")
  ∧ ∃ flags evs,
      trace (final (CompileFile "main.js" (mutator <$> [OFileName "x.js"; OStrict true]) world0)) =
        trace world0 ++ EvEval "1+1" "x.js" flags :: evs.
Proof.
  split; [reflexivity|].
  apply (CompileFile_filename_of_named_options "main.js" [OFileName "x.js"; OStrict true]
           (String.list_byte_of_string "1+1") world0).
  reflexivity.
Defined.

(** A module compiled under a name while the options carry another. *)
Lemma CompileModule_filename_witness :
  fs world0 "main.js" = inl (String.list_byte_of_string "1+1")
  ∧ ∃ flags evs,
      trace (final (CompileModule "main.js" "mod" [EvalFileName "x.js"] world0)) =
        trace world0 ++ EvEval "1+1" "mod" flags :: evs.
Proof.
  split; [reflexivity|].
  apply (proj1 (CompileModule_filename "main.js" "mod" [EvalFileName "x.js"] world0)
           (String.list_byte_of_string "1+1")).
  reflexivity.
Defined.

(** A module loaded where nothing can be linked. *)
Lemma LoadModule_resolve_failure_witness :
  ValueGetTag (Engine := unlinked)
    (JS_Eval (Engine := unlinked) "export const a = 1" "m" 33 (engine unlinked_world)).1 = -3
  ∧ ∃ w',
      LoadModule "export const a = 1" "m" unlinked_world =
        Returned (Null, Some (Errorf "resolve module failed")) w'
      ∧ trace w' = [@EvEval unlinked "export const a = 1" "m" 33;
                    @EvResolveModule unlinked (VModule "export const a = 1");
                    @EvFreeValue unlinked (VModule "export const a = 1")].
Proof.
  split; [reflexivity|].
  destruct (LoadModule_resolve_failure (E := unlinked) "export const a = 1" "m" unlinked_world
              eq_refl ltac:(discriminate)) as (w' & HL & _ & Ht).
  exists w'. split; [exact HL | exact Ht].
Defined.

(** The same module loaded where it links. *)
Lemma LoadModule_success_has_nil_error_witness :
  ValueGetTag (JS_Eval "export const a = 1" "m" 33 (engine world0)).1 = -3
  ∧ ∃ w',
      LoadModule "export const a = 1" "m" world0 =
        Returned ({| ref := VModule "export const a = 1" |}, None) w'
      ∧ trace w' = [EvEval "export const a = 1" "m" 33;
                    EvResolveModule (VModule "export const a = 1");
                    EvSetImportMeta (VModule "export const a = 1") 0 1;
                    EvAwait (VModule "export const a = 1")].
Proof.
  split; [reflexivity|].
  destruct (LoadModule_success_has_nil_error "export const a = 1" "m" world0
              eq_refl eq_refl) as (w' & HL & _ & Ht).
  exists w'. split; [exact HL | exact Ht].
Defined.

(** The bytecode of a script, loaded as a module. *)
Lemma LoadModuleBytecode_not_a_module_witness :
  IsException (JS_ReadObject (String.list_byte_of_string "1+1") (engine world0)).1 = false
  ∧ ∃ w',
      LoadModuleBytecode (String.list_byte_of_string "1+1") world0 =
        Returned (Null, Some (Errorf "not a module")) w'
      ∧ trace w' = [EvReadObject (String.list_byte_of_string "1+1"); EvJsFree].
Proof.
  split; [reflexivity|].
  destruct (LoadModuleBytecode_not_a_module (String.list_byte_of_string "1+1") world0
              eq_refl ltac:(discriminate)) as (w' & HL & _ & Ht).
  exists w'. split; [exact HL | exact Ht].
Defined.

(** The first registration of a fresh process, once more. *)
Lemma register_calls_wrapper_iff_it_returns_witness :
  0 ≤ handleIdx world0
  ∧ handleIdx world0 + 2 < 2 ^ 64
  ∧ let r := Sync 7%nat in
    let source := wrapper_source r in
    let flags := Eval_cFlag source Eval_defaults in
    let shimmed := installed r (context world0) (engine world0) in
    let evaluated := JS_Eval source "<input>" flags shimmed.2 in
    let wrapper := evaluated.1 in
    let args := [shimmed.1; ref (Int64 (int64 (handleIdx world0 + 1)));
                 ref (Int64 (int64 (handleIdx world0 + 2)))] in
    ∃ before after,
      trace (final (register r world0)) =
        trace world0 ++ before ++ EvEval source "<input>" flags :: after
          ++ [EvFreeValue wrapper]
      ∧ Forall (λ ev, is_call ev = false ∧ is_eval ev = false) before
      ∧ match (if IsException wrapper then bridge_error evaluated.2 else None) with
        | Some e =>
            (∃ w', register r world0 = Panicked (PanicError e) w')
            ∧ Forall (λ ev, is_call ev = false) after
        | None =>
            ∃ bridge v w',
              register r world0 = Returned v w'
              ∧ after = bridge ++ [EvCall wrapper (ref Null) args]
              ∧ Forall (λ ev, is_call ev = false) bridge
        end.
Proof.
  assert (H0 : 0 ≤ handleIdx world0) by (cbn; lia).
  assert (H : handleIdx world0 + 2 < 2 ^ 64) by (cbn; lia).
  split; [exact H0|]. split; [exact H|].
  exact (register_calls_wrapper_iff_it_returns (Sync 7%nat) world0 H0 H).
Defined.

Lemma registry_ok_world0 : registry_ok world0.
Proof.
  split; [cbn; lia|]. intros h o Hl. cbn in Hl. by rewrite lookup_empty in Hl.
Qed.

(** One registration of each kind on a fresh process. *)
Lemma registrations_grow_handle_table_witness :
  registry_ok world0
  ∧ handleIdx world0 + 2 * Z.of_nat (length [Sync 7%nat; Async 8%nat]) < 2 ^ 64
  ∧ ∀ vs w', mapM register [Sync 7%nat; Async 8%nat] world0 = Returned vs w' →
      length vs = 2%nat ∧ handleIdx w' = 4 ∧ size (handles w') = 4%nat.
Proof.
  assert (H : handleIdx world0 + 2 * Z.of_nat (length [Sync 7%nat; Async 8%nat]) < 2 ^ 64)
    by (cbn; lia).
  split; [exact registry_ok_world0|]. split; [exact H|].
  intros vs w' Hm.
  destruct (proj2 (registrations_grow_handle_table [Sync 7%nat; Async 8%nat] world0
                     registry_ok_world0 H) vs w' Hm) as (Hl & Hi & Hs & _).
  split; [exact Hl|]. split; [exact Hi | exact Hs].
Defined.

(** The handles of the first registration, looked up. *)
Lemma registration_handles_resolve_to_closure_and_context_witness :
  handleIdx world0 + 2 < 2 ^ 63
  ∧ ∃ v w' fnHandler ctxHandler,
      register (Sync 7%nat) world0 = Returned v w'
      ∧ handles w' !! fnHandler = Some (HFunc 7%nat)
      ∧ handles w' !! ctxHandler = Some HContext
      ∧ fnHandler ≠ ctxHandler.
Proof.
  assert (H : handleIdx world0 + 2 < 2 ^ 63) by (cbn; lia).
  split; [exact H|].
  assert (Hr : ∃ v w', register (Sync 7%nat) world0 = Returned v w').
  { eexists _, _.
    match goal with |- ?l = _ => let l' := eval hnf in l in change l with l' end.
    reflexivity. }
  destruct Hr as (v & w' & Hr).
  destruct (registration_handles_resolve_to_closure_and_context (Sync 7%nat) world0 v w'
              registry_ok_world0 H Hr) as (p & wrapper & evs & h1 & h2 & _ & _ & H1 & H2 & Hne).
  exists v, w', h1, h2. split; [exact Hr|]. split; [exact H1|]. split; [exact H2 | exact Hne].
Defined.


(** A small index, passed as it is. *)
Lemma AtomIdx_index_is_taken_modulo_2_32_witness :
  0 ≤ 5 < 2 ^ 32
  ∧ AtomIdx 5 world0 = Returned {| atom_ref := 5 |} world0.
Proof.
  assert (H : 0 ≤ 5 < 2 ^ 32) by lia.
  split; [exact H|].
  exact (proj2 (AtomIdx_index_is_taken_modulo_2_32 5 0 world0) H).
Defined.

(** Index -1 is the same atom as index 2^32 - 1. *)
Example AtomIdx_minus_one :
  AtomIdx (-1) world0 = AtomIdx 4294967295 world0.
Proof. reflexivity. Qed.
